(** * AquaFlow: the water-consumption pipeline of [prototipo_dashboard_agua.py]

    A shallow embedding of [load_data], [preprocess], [aggregate_period] and
    [detect_leaks], together with the slice of pandas they call.

    Conventions of the model.
    - A float64 is an exact rational [Q], or [NaN]; rounding is not modelled.
    - A pandas [Timestamp] is a number of nanoseconds since the epoch, or [NaT].
    - A [DataFrame] is an index and a finite map from column names to columns.
    - Python exceptions are the [Raise] results of the [result] monad.
    - [preprocess] rebinds and mutates [df], so it runs in a state monad over
      a store of frames; the other three functions only read their argument
      and build a new frame, and are functions on frame values. *)

From Stdlib Require Import ZArith QArith Qabs Qround Lia Permutation.
From stdpp Require Import base option list gmap strings sorting.

Local Close Scope Q_scope.
Local Open Scope Z_scope.
Local Open Scope nat_scope.

(** ** Exceptions and results *)

(** An exception is recorded by the built-in class it is an instance of:
    pandas' [EmptyDataError] and [OutOfBoundsDatetime] are [ValueError]s. *)
Inductive exn := KeyError | ValueError | TypeError | AttributeError | IndexError.

Inductive result (A : Type) : Type :=
  | Ok (a : A)
  | Raise (e : exn).
Arguments Ok {A} a.
Arguments Raise {A} e.

#[global] Instance result_ret : MRet result := λ A a, Ok a.
#[global] Instance result_bind : MBind result := λ A B f m,
  match m with
  | Ok a => f a
  | Raise e => Raise e
  end.

(** ** Cells, columns and frames *)

(** A cell as [read_csv] leaves it: a number, a missing value, or a text
    that [pd.to_numeric] cannot read as a number. *)
Inductive value :=
  | Num (q : Q)
  | NaN
  | Str (s : string).

Inductive Timestamp :=
  | At (ns : Z)
  | NaT.

Inductive Index :=
  | RangeIndex (n : nat)
  | DatetimeIndex (ts : list Timestamp).

Record DataFrame := mkDataFrame {
  index : Index;
  columns : gmap string (list value)
}.

Definition index_len (i : Index) : nat :=
  match i with
  | RangeIndex n => n
  | DatetimeIndex ts => length ts
  end.

(** [len(df)] *)
Definition nrows (df : DataFrame) : nat := index_len (index df).

(** [df.empty]: some axis has length zero. *)
Definition empty (df : DataFrame) : bool :=
  (nrows df =? 0) || bool_decide (columns df = ∅).

(** [df[c]] *)
Definition getitem (df : DataFrame) (c : string) : result (list value) :=
  match columns df !! c with
  | Some col => Ok col
  | None => Raise KeyError
  end.

(** [df[c] = col] on a frame value. *)
Definition set_column (df : DataFrame) (c : string) (col : list value) : DataFrame :=
  mkDataFrame (index df) (<[c := col]> (columns df)).

(** ** Configuration (module constants) *)

Definition DATA_PATH : string := "data.csv".
Definition SENSOR_COLUMNS : list string :=
  ["S1 – Vazão (L/s)"; "S2 – Vazão (L/s)"; "S3- Vazão (L/s)"; "S4 – Vazão (L/s)"].
Definition GENERAL_FLOW_COL : string := "Vazão (L/min)".
Definition TIMESTAMP_COL : string := "Timestamp".
Definition TARIFA_POR_M3 : Q := (450 # 100)%Q.
Definition THRESH_LPS : Q := (2 # 10)%Q.

(** ** Series arithmetic *)

(** [pd.to_numeric(s, errors='coerce')] *)
Definition to_numeric (s : list value) : list value :=
  (λ v, match v with Num q => Num q | _ => NaN end) <$> s.

(** [s.fillna(d)] *)
Definition fillna (s : list value) (d : Q) : list value :=
  (λ v, match v with NaN => Num d | _ => v end) <$> s.

(** A binary float operation on two cells: a text operand is a [TypeError],
    a missing operand makes the result missing. *)
Definition arith2 (f : Q → Q → Q) (a b : value) : result value :=
  match a, b with
  | Str _, _ | _, Str _ => Raise TypeError
  | Num x, Num y => Ok (Num (f x y))
  | _, _ => Ok NaN
  end.

Definition arith1 (f : Q → Q) (a : value) : result value :=
  match a with
  | Str _ => Raise TypeError
  | Num x => Ok (Num (f x))
  | NaN => Ok NaN
  end.

(** [a * b], [a - b] on two series of the same frame *)
Definition series_zip (f : Q → Q → Q) (a b : list value) : result (list value) :=
  mapM (λ p, arith2 f p.1 p.2) (zip a b).

(** [s / k], [s.abs()] *)
Definition series_map (f : Q → Q) (s : list value) : result (list value) :=
  mapM (arith1 f) s.

(** [s.sum()] on a series of numbers: missing cells are skipped, the empty
    sum is 0. A sum is a number here, so the series that pandas sums to a
    text, those whose cells are all texts, are not covered: a text cell
    makes the model raise, as adding a text to a number does. *)
Fixpoint series_sum (s : list value) : result Q :=
  match s with
  | [] => Ok 0%Q
  | Str _ :: _ => Raise TypeError
  | NaN :: s' => series_sum s'
  | Num q :: s' => t ← series_sum s'; Ok (q + t)%Q
  end.

Definition Qmax (a b : Q) : Q := if Qle_bool a b then b else a.

(** [s.max()]: missing cells are skipped; [NaN] when nothing is left. *)
Fixpoint series_max (s : list value) : result value :=
  match s with
  | [] => Ok NaN
  | Str _ :: _ => Raise TypeError
  | NaN :: s' => series_max s'
  | Num q :: s' =>
      m ← series_max s';
      match m with
      | Num q' => Ok (Num (Qmax q q'))
      | _ => Ok (Num q)
      end
  end.

(** [df[cols].sum(axis=1)]: the sum of the listed columns, row by row. *)
Definition sum_axis1 (n : nat) (cols : list (list value)) : result (list value) :=
  mapM (λ i, t ← series_sum (omap (λ col, col !! i) cols); Ok (Num t)) (seq 0 n).

(** ** Time *)

Definition NS_PER_S : Z := 1000000000.

(** [(b - a).total_seconds()] *)
Definition total_seconds (b a : Timestamp) : value :=
  match b, a with
  | At y, At x => Num (Qmake (y - x) (Z.to_pos NS_PER_S))
  | _, _ => NaN
  end.

(** [ts.to_series().diff().dt.total_seconds()] on a list of timestamps,
    [prev] being the entry before the list. *)
Fixpoint diff_seconds (prev : option Timestamp) (ts : list Timestamp) : list value :=
  match ts with
  | [] => []
  | t :: ts' =>
      match prev with
      | None => NaN
      | Some p => total_seconds t p
      end :: diff_seconds (Some t) ts'
  end.

(** [df.index.to_series().diff().dt.total_seconds()]: the [.dt] accessor
    exists on datetime values only. *)
Definition index_diff_seconds (i : Index) : result (list value) :=
  match i with
  | DatetimeIndex ts => Ok (diff_seconds None ts)
  | RangeIndex _ => Raise AttributeError
  end.

(** ** The store of frames *)

(** Python variables hold references; a frame lives in the store, and
    [df[c] = ...] updates the stored object that [df] points to. *)
Abbreviation loc := nat (only parsing).
Abbreviation store := (list DataFrame) (only parsing).

Definition M (A : Type) : Type := store → result A * store.

#[global] Instance M_ret : MRet M := λ A a h, (Ok a, h).
#[global] Instance M_bind : MBind M := λ A B f m h,
  match m h with
  | (Ok a, h') => f a h'
  | (Raise e, h') => (Raise e, h')
  end.

Definition lift {A} (r : result A) : M A := λ h, (r, h).

Definition deref (r : loc) : M DataFrame := λ h,
  match h !! r with
  | Some df => (Ok df, h)
  | None => (Raise IndexError, h)
  end.

(** A new object, at the first unused location. *)
Definition alloc (df : DataFrame) : M loc := λ h, (Ok (length h), h ++ [df]).

Definition assign (r : loc) (df : DataFrame) : M unit := λ h, (Ok (), <[r := df]> h).

(** [df.empty] *)
Definition df_empty (r : loc) : M bool := df ← deref r; mret (empty df).

(** [df.copy()]: a deep copy, a new object with the same index and cells. *)
Definition df_copy (r : loc) : M loc := df ← deref r; alloc df.

(** [df[c]] *)
Definition df_getitem (r : loc) (c : string) : M (list value) :=
  df ← deref r; lift (getitem df c).

(** [df.get(c, 0)]: the column, or the scalar default ([None] here). *)
Definition df_get (r : loc) (c : string) : M (option (list value)) :=
  df ← deref r; mret (columns df !! c).

(** [df[c] = col]: in place. *)
Definition df_setitem (r : loc) (c : string) (col : list value) : M unit :=
  df ← deref r; assign r (set_column df c col).

(** [df[cols].sum(axis=1)] *)
Definition df_sum_axis1 (r : loc) (cs : list string) : M (list value) :=
  df ← deref r; lift (cols ← mapM (getitem df) cs; sum_axis1 (nrows df) cols).

(** [df.index] *)
Definition df_index (r : loc) : M Index := df ← deref r; mret (index df).

(** [for x in xs: body] *)
Fixpoint for_each {A} (xs : list A) (body : A → M unit) : M unit :=
  match xs with
  | [] => mret ()
  | x :: xs' => _ ← body x; for_each xs' body
  end.

(** ** [preprocess] *)

Definition div60 (q : Q) : Q := (q / 60)%Q.

Definition preprocess (df : loc) : M loc :=
  e ← df_empty df;
  if e : bool then (mret df : M loc) else
  df ← df_copy df;
  g ← df_getitem df GENERAL_FLOW_COL;
  geral ← lift (series_map div60 (fillna (to_numeric g) 0));
  _ ← df_setitem df "geral_lps" geral;
  _ ← for_each SENSOR_COLUMNS (λ s,
        c ← df_get df s;
        match c with
        | Some col => df_setitem df s (fillna (to_numeric col) 0)
        | None => lift (Raise AttributeError)
        end);
  soma ← df_sum_axis1 df SENSOR_COLUMNS;
  _ ← df_setitem df "soma_sensores_lps" soma;
  i ← df_index df;
  d ← lift (index_diff_seconds i);
  _ ← df_setitem df "delta_s" (fillna d 1);
  a ← df_getitem df "geral_lps";
  b ← df_getitem df "delta_s";
  vg ← lift (series_zip Qmult a b);
  _ ← df_setitem df "volume_geral_l" vg;
  a ← df_getitem df "soma_sensores_lps";
  b ← df_getitem df "delta_s";
  vs ← lift (series_zip Qmult a b);
  _ ← df_setitem df "volume_sensores_l" vs;
  a ← df_getitem df "geral_lps";
  b ← df_getitem df "soma_sensores_lps";
  dif ← lift (s ← series_zip Qminus a b; series_map Qabs s);
  _ ← df_setitem df "diff_lps" dif;
  (mret df : M loc).

(** ** [detect_leaks] *)

(** An index label: a position of a [RangeIndex], or a timestamp. *)
Inductive label :=
  | LInt (n : nat)
  | LTime (t : Timestamp).

Definition labels (i : Index) : list label :=
  match i with
  | RangeIndex n => LInt <$> seq 0 n
  | DatetimeIndex ts => LTime <$> ts
  end.

(** The row at position [i], as a Series keyed by column name. *)
Definition row_at (df : DataFrame) (i : nat) : gmap string value :=
  omap (λ col : list value, col !! i) (columns df).

(** [df.iterrows()] *)
Definition iterrows (df : DataFrame) : list (label * gmap string value) :=
  imap (λ i l, (l, row_at df i)) (labels (index df)).

(** [row[c]] *)
Definition row_get (row : gmap string value) (c : string) : result value :=
  match row !! c with
  | Some v => Ok v
  | None => Raise KeyError
  end.

(** [v > q] on a cell: false on a missing value, a [TypeError] on a text. *)
Definition gt (v : value) (q : Q) : result bool :=
  match v with
  | Num x => Ok (negb (Qle_bool x q))
  | NaN => Ok false
  | Str _ => Raise TypeError
  end.

(** [v == q] on a cell *)
Definition eq_num (v : value) (q : Q) : bool :=
  match v with
  | Num x => Qeq_bool x q
  | _ => false
  end.

(** [(b - a).total_seconds()] on two labels: integers have no such method. *)
Definition label_total_seconds (b a : label) : result value :=
  match b, a with
  | LTime y, LTime x => Ok (total_seconds y x)
  | _, _ => Raise AttributeError
  end.

Inductive LeakType := mismatch | hidden_leak.

Record LeakEvent := mkLeakEvent {
  start : label;
  end_ : label;
  duration_s : value;
  max_diff_lps : value;
  type_ : LeakType;
  volume_l : Q
}.

(** [pd.DataFrame([r[1] for r in alert_rows])[c]] *)
Definition rows_col (alert_rows : list (label * gmap string value)) (c : string)
  : result (list value) :=
  mapM (λ r, row_get r.2 c) alert_rows.

(** The summary of a buffered run; the same statements close a run inside
    the loop and after it. *)
Definition summary (alert_rows : list (label * gmap string value)) : result LeakEvent :=
  let times := fst <$> alert_rows in
  match head times, last times with
  | Some t0, Some t1 =>
      duration ←
        (if 1 <? length times
         then label_total_seconds t1 t0
         else d ← rows_col alert_rows "delta_s"; t ← series_sum d; Ok (Num t));
      max_diff ← (d ← rows_col alert_rows "diff_lps"; series_max d);
      vol ← (v ← rows_col alert_rows "volume_geral_l"; series_sum v);
      typ ←
        (s ← rows_col alert_rows "soma_sensores_lps";
         if forallb (λ v, eq_num v 0) s
         then g ← rows_col alert_rows "geral_lps";
              pos ← mapM (λ v, gt v 0) g;
              Ok (if existsb id pos then hidden_leak else mismatch)
         else Ok mismatch);
      Ok (mkLeakEvent t0 t1 duration max_diff typ vol)
  | _, _ => Raise IndexError
  end.

(** The anomaly test of the loop body on one row. *)
Definition anomalous (threshold_lps : Q) (row : gmap string value) : result bool :=
  diff ← row_get row "diff_lps";
  geral ← row_get row "geral_lps";
  soma ← row_get row "soma_sensores_lps";
  is_mismatch ← gt diff threshold_lps;
  is_hidden_leak ← (if eq_num soma 0 then gt geral 0 else Ok false);
  Ok (is_mismatch || is_hidden_leak).

(** The variables of the loop. *)
Record scan := mkScan {
  alerts : list LeakEvent;
  in_alert : bool;
  start_ts : option label;
  alert_rows : list (label * gmap string value)
}.

(** One iteration of [for ts, row in df.iterrows()]. *)
Definition scan_step (threshold_lps : Q) (st : scan) (r : label * gmap string value)
  : result scan :=
  a ← anomalous threshold_lps r.2;
  if a : bool then
    let st := if in_alert st then st
              else mkScan (alerts st) true (Some r.1) [] in
    Ok (mkScan (alerts st) (in_alert st) (start_ts st) (alert_rows st ++ [r]))
  else
    if in_alert st then
      ev ← summary (alert_rows st);
      Ok (mkScan (alerts st ++ [ev]) false (start_ts st) [])
    else Ok st.

Fixpoint scan_rows (threshold_lps : Q) (st : scan) (rows : list (label * gmap string value))
  : result scan :=
  match rows with
  | [] => Ok st
  | r :: rows' => st' ← scan_step threshold_lps st r; scan_rows threshold_lps st' rows'
  end.

(** The statements after the loop: close the last run. *)
Definition close_last (st : scan) : result (list LeakEvent) :=
  if in_alert st && negb (bool_decide (alert_rows st = []))
  then ev ← summary (alert_rows st); Ok (alerts st ++ [ev])
  else Ok (alerts st).

Definition detect_leaks (df : DataFrame) (threshold_lps : Q) : result (list LeakEvent) :=
  if empty df then Ok []
  else
    st ← scan_rows threshold_lps (mkScan [] false None []) (iterrows df);
    close_last st.

(** ** Calendar arithmetic for the resampling bins *)

Local Open Scope Z_scope.

Definition NS_PER_DAY : Z := 86400 * NS_PER_S.

(** Days since 1970-01-01 of the civil date [y]-[m]-[d]. *)
Definition days_from_civil (y m d : Z) : Z :=
  let y := if m <=? 2 then y - 1 else y in
  let era := y / 400 in
  let yoe := y - era * 400 in
  let mp := if 2 <? m then m - 3 else m + 9 in
  let doy := (153 * mp + 2) / 5 + d - 1 in
  let doe := yoe * 365 + yoe / 4 - yoe / 100 + doy in
  era * 146097 + doe - 719468.

(** Year and month of a day number. *)
Definition civil_year_month (days : Z) : Z * Z :=
  let z := days + 719468 in
  let era := z / 146097 in
  let doe := z - era * 146097 in
  let yoe := (doe - doe / 1460 + doe / 36524 - doe / 146096) / 365 in
  let doy := doe - (365 * yoe + yoe / 4 - yoe / 100) in
  let mp := (5 * doy + 2) / 153 in
  let m := if mp <? 10 then mp + 3 else mp - 9 in
  (if m <=? 2 then yoe + era * 400 + 1 else yoe + era * 400, m).

(** Months are numbered from year 0: month [12 * y + (m - 1)]. *)
Definition month_index (days : Z) : Z :=
  let '(y, m) := civil_year_month days in 12 * y + (m - 1).

(** The last day of month number [k]: the eve of the first of the next. *)
Definition month_end_day (k : Z) : Z :=
  days_from_civil ((k + 1) / 12) ((k + 1) mod 12 + 1) 1 - 1.

(** Weeks run from Monday to Sunday and are numbered from the one that
    contains 1970-01-01, a Thursday. *)
Definition week_index (days : Z) : Z := (days + 3) / 7.

(** The Sunday that closes week [k]. *)
Definition week_end_day (k : Z) : Z := 7 * k + 3.

(** ** [aggregate_period] *)

(** The frequencies of the docstring: ['T'], ['H'], ['D'], ['W'], ['M']. *)
Inductive Freq := T | H | D | W | M_.

Definition tick (f : Freq) : Z :=
  match f with
  | T => 60 * NS_PER_S
  | H => 3600 * NS_PER_S
  | _ => NS_PER_DAY
  end.

(** The number of the bin that holds instant [ns]. *)
Definition bin_index (f : Freq) (ns : Z) : Z :=
  match f with
  | T | H | D => ns / tick f
  | W => week_index (ns / NS_PER_DAY)
  | M_ => month_index (ns / NS_PER_DAY)
  end.

(** The label pandas gives bin [k]: the start of the minute, hour or day
    (bins closed and labelled on the left), the midnight of the closing
    Sunday for ['W'] and of the last day of the month for ['M'] (bins closed
    and labelled on the right). *)
Definition label_of_bin (f : Freq) (k : Z) : Z :=
  match f with
  | T | H | D => k * tick f
  | W => week_end_day k * NS_PER_DAY
  | M_ => month_end_day k * NS_PER_DAY
  end.

Definition bucket_label (f : Freq) (ns : Z) : Z := label_of_bin f (bin_index f ns).

(** The integers from [a] to [b], both included. *)
Definition Zrange (a b : Z) : list Z :=
  (λ i, a + Z.of_nat i) <$> seq 0 (Z.to_nat (b - a + 1)).

Definition instants (ts : list Timestamp) : list Z :=
  omap (λ t, match t with At ns => Some ns | NaT => None end) ts.

Definition Zmin_list (l : list Z) : option Z :=
  match l with
  | [] => None
  | x :: l' => Some (foldr Z.min x l')
  end.

Definition Zmax_list (l : list Z) : option Z :=
  match l with
  | [] => None
  | x :: l' => Some (foldr Z.max x l')
  end.

(** The bin labels of [df.resample(freq)] on an index with an instant:
    every bin from the one of the earliest instant to the one of the latest,
    empty bins included; rows at [NaT] are in no bin. *)
Definition bins (f : Freq) (ts : list Timestamp) : list Z :=
  match Zmin_list (instants ts), Zmax_list (instants ts) with
  | Some lo, Some hi => label_of_bin f <$> Zrange (bin_index f lo) (bin_index f hi)
  | _, _ => []
  end.

(** The cells of [col] whose row falls in the bin labelled [l]. *)
Definition in_bin (f : Freq) (l : Z) (t : Timestamp) : bool :=
  match t with
  | At ns => bucket_label f ns =? l
  | NaT => false
  end.

Definition bin_cells (f : Freq) (l : Z) (ts : list Timestamp) (col : list value)
  : list value :=
  snd <$> filter (λ p, in_bin f l p.1 = true) (zip ts col).

(** [df.resample(freq).agg({c: 'sum'})[c]] *)
Definition resample_sum (f : Freq) (ts : list Timestamp) (df : DataFrame) (c : string)
  : result (list value) :=
  col ← getitem df c;
  mapM (λ l, t ← series_sum (bin_cells f l ts col); Ok (Num t)) (bins f ts).

Definition div1000 (q : Q) : Q := (q / 1000)%Q.

Definition aggregate_period (df : DataFrame) (freq : Freq) : result DataFrame :=
  if empty df then Ok df
  else
    match index df with
    | RangeIndex _ => Raise TypeError
    | DatetimeIndex ts =>
        (* df.resample(freq) lays out its bins from the earliest and the
           latest instant of the index, before any column is looked up *)
        match instants ts with
        | [] => Raise AttributeError
        | _ =>
        cols ← mapM (λ c, col ← resample_sum freq ts df c; Ok (c, col))
                 (["volume_geral_l"; "volume_sensores_l"] ++ SENSOR_COLUMNS);
        let agg := mkDataFrame (DatetimeIndex (At <$> bins freq ts)) (list_to_map cols) in
        v ← getitem agg "volume_geral_l";
        m3 ← series_map div1000 v;
        let agg := set_column agg "m3" m3 in
        m3 ← getitem agg "m3";
        custo ← series_map (λ q, q * TARIFA_POR_M3)%Q m3;
        let agg := set_column agg "custo_R$" custo in
        Ok agg
        end
    end.

(** ** [load_data] *)

Local Open Scope nat_scope.

(** [c.strip()]. A text is the sequence of the bytes of its UTF-8
    encoding, and [str.strip] removes from both ends the characters on which
    [str.isspace] holds: U+0009 to U+000D, U+001C to U+0020, U+0085, U+00A0,
    U+1680, U+2000 to U+200A, U+2028, U+2029, U+202F, U+205F and U+3000.
    They are encoded on one, two or three bytes. *)
Definition space1 (a : Ascii.ascii) : bool :=
  let n := Ascii.N_of_ascii a in
  ((9 <=? n) && (n <=? 13) || (28 <=? n) && (n <=? 32))%N.

Definition space2 (a b : Ascii.ascii) : bool :=
  let a := Ascii.N_of_ascii a in
  let b := Ascii.N_of_ascii b in
  ((a =? 194) && ((b =? 133) || (b =? 160)))%N.

Definition space3 (a b c : Ascii.ascii) : bool :=
  let a := Ascii.N_of_ascii a in
  let b := Ascii.N_of_ascii b in
  let c := Ascii.N_of_ascii c in
  ((a =? 225) && (b =? 154) && (c =? 128) ||
   (a =? 226) && (b =? 128) &&
     ((128 <=? c) && (c <=? 138) || (c =? 168) || (c =? 169) || (c =? 175)) ||
   (a =? 226) && (b =? 129) && (c =? 159) ||
   (a =? 227) && (b =? 128) && (c =? 128))%N.

(** The text without the blanks it starts with; [sp2] and [sp3] tell the
    blanks of two and three bytes. *)
Fixpoint lstrip_by (sp2 : Ascii.ascii → Ascii.ascii → bool)
    (sp3 : Ascii.ascii → Ascii.ascii → Ascii.ascii → bool) (s : string) : string :=
  match s with
  | EmptyString => EmptyString
  | String a s1 =>
      if space1 a then lstrip_by sp2 sp3 s1 else
      match s1 with
      | EmptyString => s
      | String b s2 =>
          if sp2 a b then lstrip_by sp2 sp3 s2 else
          match s2 with
          | EmptyString => s
          | String c s3 => if sp3 a b c then lstrip_by sp2 sp3 s3 else s
          end
      end
  end.

Definition lstrip (s : string) : string := lstrip_by space2 space3 s.

(** The same on the reversed text, where the bytes of a character come in
    reverse order. *)
Definition rstrip (s : string) : string :=
  String.rev (lstrip_by (λ b a, space2 a b) (λ c b a, space3 a b c) (String.rev s)).

Definition strip (s : string) : string := rstrip (lstrip s).

(** [col.take(perm)]: the cells of [col] in the order [perm]. *)
Definition take_rows {A} (perm : list nat) (col : list A) : list A :=
  omap (λ i, col !! i) perm.

(** A CSV file after parsing: its columns in file order, header first. *)
Abbreviation csv := (list (string * list value)) (only parsing).

(** The frame of a parsed file. *)
Definition frame_of (file : csv) : DataFrame :=
  mkDataFrame (RangeIndex (from_option (λ c, length c.2) 0 (head file)))
    (list_to_map file).

(** [pd.read_csv(path)] on the parsed file: a file without columns raises
    [EmptyDataError]. *)
Definition read_csv (file : csv) : result DataFrame :=
  match file with
  | [] => Raise ValueError
  | _ => Ok (frame_of file)
  end.

(** [df.columns = [c.strip() for c in df.columns]] *)
Definition strip_columns (df : DataFrame) : DataFrame :=
  mkDataFrame (index df) (kmap strip (columns df)).

(** [for c in cols: if c not in df.columns: df[c] = 0] *)
Definition fill_missing (cols : list string) (df : DataFrame) : DataFrame :=
  foldl (λ df c,
           match columns df !! c with
           | Some _ => df
           | None => set_column df c (replicate (nrows df) (Num 0))
           end) df cols.

Definition INT64_MAX : Z := (2 ^ 63 - 1)%Z.
Definition INT64_MIN : Z := (- 2 ^ 63)%Z.

Section load_data.
(** The two pandas routines [load_data] relies on are parameters: the
    reader of one timestamp text, which answers [None] on a text it cannot
    read, and the order [sort_values] puts the keys in. *)
Variable strptime : string → option Z.
Variable argsort : list Timestamp → list nat.

(** One cell of [pd.to_datetime(col)], with the default [errors='raise']:
    a missing cell becomes [NaT]; a number counts nanoseconds, its fraction
    dropped, and raises [OutOfBoundsDatetime] outside the range of the
    instants, from [-2^63 + 1] to [2^63 - 1] nanoseconds; a text is read or
    the call raises. *)
Definition to_datetime_cell (v : value) : result Timestamp :=
  match v with
  | NaN => Ok NaT
  | Num q =>
      let ns := (Qnum q ÷ Z.pos (Qden q))%Z in
      if bool_decide (INT64_MIN < ns ≤ INT64_MAX)%Z then Ok (At ns)
      else Raise ValueError
  | Str s =>
      match strptime s with
      | Some ns => Ok (At ns)
      | None => Raise ValueError
      end
  end.

Definition to_datetime (col : list value) : result (list Timestamp) :=
  mapM to_datetime_cell col.

(** The file system maps the paths that exist to their parsed content. *)
Definition load_data (fs : gmap string csv) (path : string) : result DataFrame :=
  match fs !! path with
  | None =>
      let cols := [TIMESTAMP_COL; "Pulsos"; GENERAL_FLOW_COL] ++ SENSOR_COLUMNS in
      Ok (mkDataFrame (RangeIndex 0) (list_to_map ((λ c, (c, [])) <$> cols)))
  | Some file =>
      df ← read_csv file;
      let df := strip_columns df in
      raw ← getitem df TIMESTAMP_COL;
      ts ← to_datetime raw;
      (* sort_values(TIMESTAMP_COL), then set_index(TIMESTAMP_COL) *)
      let perm := argsort ts in
      let df := mkDataFrame (DatetimeIndex (take_rows perm ts))
                  (take_rows perm <$> delete TIMESTAMP_COL (columns df)) in
      Ok (fill_missing (SENSOR_COLUMNS ++ [GENERAL_FLOW_COL]) df)
  end.
End load_data.

(** *** A concrete reader and a concrete order *)

Local Open Scope Z_scope.

Definition digit (a : Ascii.ascii) : option Z :=
  let n := Z.of_nat (Ascii.nat_of_ascii a) in
  if (48 <=? n) && (n <=? 57) then Some (n - 48) else None.

Fixpoint digits (acc : Z) (s : string) : option Z :=
  match s with
  | EmptyString => Some acc
  | String a s' => d ← digit a; digits (10 * acc + d) s'
  end.

(** The form the logger writes, ["%Y-%m-%d %H:%M:%S"], for the dates an
    instant can hold. *)
Definition iso_strptime (s : string) : option Z :=
  if negb (String.length s =? 19)%nat then None else
  if negb (bool_decide (String.substring 4 1 s = "-" ∧ String.substring 7 1 s = "-" ∧
                        String.substring 10 1 s = " " ∧ String.substring 13 1 s = ":" ∧
                        String.substring 16 1 s = ":")) then None else
  y ← digits 0 (String.substring 0 4 s);
  m ← digits 0 (String.substring 5 2 s);
  d ← digits 0 (String.substring 8 2 s);
  hh ← digits 0 (String.substring 11 2 s);
  mm ← digits 0 (String.substring 14 2 s);
  ss ← digits 0 (String.substring 17 2 s);
  let ns := (((days_from_civil y m d * 24 + hh) * 60 + mm) * 60 + ss) * NS_PER_S in
  if (1 <=? m) && (m <=? 12) && (1 <=? d) &&
     (d <=? month_end_day (12 * y + (m - 1)) - days_from_civil y m 1 + 1) &&
     (hh <? 24) && (mm <? 60) && (ss <? 60) &&
     (INT64_MIN <? ns) && (ns <=? INT64_MAX)
  then Some ns
  else None.

(** Ascending, [NaT] last. *)
Definition ts_le (a b : Timestamp) : bool :=
  match a, b with
  | At x, At y => x <=? y
  | _, NaT => true
  | NaT, At _ => false
  end.

Fixpoint insert_sorted (k : Timestamp * nat) (l : list (Timestamp * nat))
  : list (Timestamp * nat) :=
  match l with
  | [] => [k]
  | k' :: l' => if ts_le k.1 k'.1 then k :: l else k' :: insert_sorted k l'
  end.

(** An insertion sort from the right: equal keys keep their input order. *)
Definition stable_argsort (ts : list Timestamp) : list nat :=
  snd <$> foldr insert_sorted [] (zip ts (seq 0 (length ts))).

(** ** DerivedReadings: the typed view of a frame *)

Local Open Scope nat_scope.

Record reading := mkReading {
  diff_lps : Q;
  geral_lps : Q;
  soma_sensores_lps : Q;
  delta_s : Q;
  volume_geral_l : Q
}.

Definition num (v : value) : option Q :=
  match v with
  | Num q => Some q
  | _ => None
  end.

Definition reading_of (row : gmap string value) : option reading :=
  d ← row !! "diff_lps" ≫= num;
  g ← row !! "geral_lps" ≫= num;
  s ← row !! "soma_sensores_lps" ≫= num;
  e ← row !! "delta_s" ≫= num;
  v ← row !! "volume_geral_l" ≫= num;
  Some (mkReading d g s e v).

(** The rows of [df] as DerivedReadings, when every row has the five
    derived cells and they are numbers. *)
Definition readings (df : DataFrame) : option (list reading) :=
  mapM (λ r, reading_of r.2) (iterrows df).

#[global] Instance Qlt_decision (x y : Q) : Decision (x < y)%Q.
Proof.
  destruct (Qlt_le_dec x y) as [?|Hle]; [by left|].
  right. by apply Qle_not_lt.
Defined.

#[global] Instance Qeq_decision (x y : Q) : Decision (x == y)%Q := Qeq_dec x y.

(** The anomaly predicate of the specification. *)
Definition is_anomalous (threshold : Q) (o : Timestamp * reading) : Prop :=
  (threshold < diff_lps o.2 ∨ (soma_sensores_lps o.2 == 0 ∧ 0 < geral_lps o.2))%Q.

#[global] Instance is_anomalous_dec th o : Decision (is_anomalous th o).
Proof.
  unfold is_anomalous.
  destruct (Qlt_le_dec th (diff_lps o.2)) as [?|Hd]; [left; by left|].
  destruct (Qeq_dec (soma_sensores_lps o.2) 0) as [?|Hs];
    [|right; intros [?%Qlt_not_le|[? _]]; done].
  destruct (Qlt_le_dec 0 (geral_lps o.2)) as [?|Hg]; [left; by right|].
  right; intros [?%Qlt_not_le|[_ ?%Qlt_not_le]]; done.
Defined.

(** The row [r] of the frame carries the DerivedReading [o]. *)
Definition row_reads (r : label * gmap string value) (o : Timestamp * reading) : Prop :=
  r.1 = LTime o.1 ∧ reading_of r.2 = Some o.2.

(** The state machine of the specification: [runs_from P cur l rs] when
    scanning [l] with the open run [cur] ([[]] when idle) emits the runs
    [rs]. *)
Inductive runs_from {A} (P : A → Prop) : list A → list A → list (list A) → Prop :=
  | runs_end_idle : runs_from P [] [] []
  | runs_end_open cur : cur ≠ [] → runs_from P cur [] [cur]
  | runs_extend cur x l rs :
      P x → runs_from P (cur ++ [x]) l rs → runs_from P cur (x :: l) rs
  | runs_skip x l rs :
      ¬ P x → runs_from P [] l rs → runs_from P [] (x :: l) rs
  | runs_close cur x l rs :
      cur ≠ [] → ¬ P x → runs_from P [] l rs → runs_from P cur (x :: l) (cur :: rs).

Definition maximal_runs {A} (P : A → Prop) (l : list A) (rs : list (list A)) : Prop :=
  runs_from P [] l rs.

Definition Qsum (l : list Q) : Q := foldr Qplus 0%Q l.

Definition is_max (m : Q) (l : list Q) : Prop :=
  Exists (λ x, x == m)%Q l ∧ Forall (λ x, x <= m)%Q l.

(** The fields of the event that closes the run [r]. *)
Definition summarises (r : list (Timestamp * reading)) (ev : LeakEvent) : Prop :=
  ∃ o0 o1, head r = Some o0 ∧ last r = Some o1 ∧
    start ev = LTime o0.1 ∧
    end_ ev = LTime o1.1 ∧
    (if 1 <? length r then duration_s ev = total_seconds o1.1 o0.1
     else ∃ d, duration_s ev = Num d ∧ (d == delta_s o0.2)%Q) ∧
    (∃ m, max_diff_lps ev = Num m ∧ is_max m ((λ o, diff_lps o.2) <$> r)) ∧
    (volume_l ev == Qsum ((λ o, volume_geral_l o.2) <$> r))%Q ∧
    (type_ ev = hidden_leak ↔
       Forall (λ o, soma_sensores_lps o.2 == 0)%Q r ∧
       Exists (λ o, 0 < geral_lps o.2)%Q r) ∧
    (type_ ev = mismatch ∨ type_ ev = hidden_leak).

(** ** Readings before derivation *)

(** A cell read as a rate: a number, or 0 when missing or not a number. *)
Definition num0 (v : value) : Q :=
  match v with
  | Num q => q
  | _ => 0%Q
  end.

(** The cell of column [c] at row [i]. *)
Definition cell (df : DataFrame) (c : string) (i : nat) : option value :=
  columns df !! c ≫= (λ col : list value, col !! i).

Definition num1 (v : value) : Q :=
  match v with
  | Num q => q
  | _ => 1%Q
  end.

(** The time elapsed at an instant [t] since the previous row [prev]: one
    second when there is no previous row, or no instant to subtract. *)
Definition elapsed (prev : option Timestamp) (t : Timestamp) : Q :=
  match prev with
  | Some p => num1 (total_seconds t p)
  | None => 1%Q
  end.

Fixpoint deltas (prev : option Timestamp) (ts : list Timestamp) : list Q :=
  match ts with
  | [] => []
  | t :: ts' => elapsed prev t :: deltas (Some t) ts'
  end.

(** The frame [preprocess] builds from a non-empty frame with index [ts],
    general-flow column [g] and sensor columns [ss], in closed form. *)
Definition derive (df : DataFrame) (ts : list Timestamp) (g : list value)
    (ss : list (list value)) : DataFrame :=
  let geral := (λ v, div60 (num0 v)) <$> g in
  let sensors := (λ s : list value, num0 <$> s) <$> ss in
  let soma := (λ i, Qsum (omap (λ col : list Q, col !! i) sensors)) <$> seq 0 (length ts) in
  let delta := deltas None ts in
  foldl (λ d (c : string * list Q), set_column d c.1 (Num <$> c.2)) df
    ([("geral_lps", geral)] ++ zip SENSOR_COLUMNS sensors ++
     [("soma_sensores_lps", soma);
      ("delta_s", delta);
      ("volume_geral_l", zip_with Qmult geral delta);
      ("volume_sensores_l", zip_with Qmult soma delta);
      ("diff_lps", Qabs <$> zip_with Qminus geral soma)]).

(** ** Invariants of the store *)

(** [m] keeps the invariant [P] of the store, whether it returns or raises,
    and what it returns satisfies [Q]. *)
Definition keeps (P : list DataFrame → Prop) {A} (m : M A) (Q : A → Prop) : Prop :=
  ∀ h, P h → P (m h).2 ∧ ∀ a, (m h).1 = Ok a → Q a.

(** The objects of [h0] are where they were, as they were. *)
Definition untouched (h0 h : list DataFrame) : Prop := h0 `prefix_of` h.

(** ** The scenario of the specification

    Five readings, one second apart; the meter reads 1 L/s at the third and
    fourth while every room sensor reads 0. *)

Definition secs (n : Z) : Timestamp := At (n * NS_PER_S).

Definition scenario_readings : list reading :=
  [mkReading 0 0 0 1 0; mkReading 0 0 0 1 0; mkReading 1 1 0 1 1;
   mkReading 1 1 0 1 1; mkReading 0 0 0 1 0].

Definition scenario_times : list Timestamp :=
  [secs 0; secs 1; secs 2; secs 3; secs 4].

Definition scenario : DataFrame :=
  mkDataFrame (DatetimeIndex scenario_times)
    (list_to_map
       [("geral_lps", (λ r, Num (geral_lps r)) <$> scenario_readings);
        ("soma_sensores_lps", (λ r, Num (soma_sensores_lps r)) <$> scenario_readings);
        ("delta_s", (λ r, Num (delta_s r)) <$> scenario_readings);
        ("volume_geral_l", (λ r, Num (volume_geral_l r)) <$> scenario_readings);
        ("diff_lps", (λ r, Num (diff_lps r)) <$> scenario_readings)]).

(** The same five instants before derivation: the meter in L/min, with a
    text and a missing cell, and four silent sensors. *)
Definition raw_flow : list value := [Num 0; Str "erro"; Num 60; Num 60; NaN].

Definition silent : list value := [Num 0; Num 0; Num 0; Num 0; Num 0].

Definition scenario_raw : DataFrame :=
  mkDataFrame (DatetimeIndex scenario_times)
    (list_to_map ((GENERAL_FLOW_COL, raw_flow) :: ((λ c, (c, silent)) <$> SENSOR_COLUMNS))).

(** ** Buckets *)

(** The values, out of [qs], of the readings whose timestamp falls in the
    bin labelled [l]. *)
Definition bin_values (f : Freq) (l : Z) (ts : list Timestamp) (qs : list Q) : list Q :=
  snd <$> filter (λ p, in_bin f l p.1 = true) (zip ts qs).

(** The sums of [qs] over the bins of [ts], bin after bin. *)
Definition bucket_sums (f : Freq) (ts : list Timestamp) (qs : list Q) : list Q :=
  (λ l, Qsum (bin_values f l ts qs)) <$> bins f ts.

(** *** Buckets in the words of the calendar

    A bucket is known by its key, an instant. The reading at instant [ns]
    belongs to the bucket keyed [l] when [ns] is in the minute, the hour or
    the day that starts at [l]; in the seven days the last of which starts at
    [l]; in the month of the day that starts at [l]. *)
Definition same_month (d d' : Z) : Prop := civil_year_month d = civil_year_month d'.

Definition in_bucket (f : Freq) (l ns : Z) : Prop :=
  match f with
  | T => l ≤ ns < l + 60 * NS_PER_S
  | H => l ≤ ns < l + 3600 * NS_PER_S
  | D => l ≤ ns < l + NS_PER_DAY
  | W => l - 6 * NS_PER_DAY ≤ ns < l + NS_PER_DAY
  | M_ => same_month (l / NS_PER_DAY) (ns / NS_PER_DAY)
  end%Z.


Definition holds (f : Freq) (l : Z) (t : Timestamp) : Prop :=
  match t with
  | At ns => in_bucket f l ns
  | NaT => False
  end.

#[global] Instance holds_dec f l t : Decision (holds f l t).
Proof. destruct t as [ns|]; [destruct f|]; cbn; unfold same_month; apply _. Defined.



(** Two readings ten seconds apart on Monday 1970-01-05: sensor 1 flows at
    1 L/s, the meter at 60 L/min. *)
Definition monday : Z := 4 * NS_PER_DAY.

Definition week_times : list Timestamp := [At monday; At (monday + 10 * NS_PER_S)].

Definition week_frame : DataFrame :=
  mkDataFrame (DatetimeIndex week_times)
    (list_to_map
       ([("volume_geral_l", [Num 1; Num 10]);
         ("volume_sensores_l", [Num 1; Num 10]);
         ("delta_s", [Num 1; Num 10]);
         ("S1 – Vazão (L/s)", [Num 1; Num 1])] ++
        ((λ c, (c, [Num 0; Num 0])) <$> ["S2 – Vazão (L/s)"; "S3- Vazão (L/s)"; "S4 – Vazão (L/s)"]))).

(** ** Two files for the loader *)

(** The frame [load_data] builds when the file is missing. *)
Definition no_data : DataFrame :=
  mkDataFrame (RangeIndex 0)
    (list_to_map ((λ c, (c, [])) <$>
       ([TIMESTAMP_COL; "Pulsos"; GENERAL_FLOW_COL] ++ SENSOR_COLUMNS))).

(** A file whose second row has a text in place of the timestamp and whose
    third row has no timestamp. *)
Definition bad_file : list (string * list value) :=
  [("Timestamp", [Str "1970-01-01 00:00:01"; Str "sem leitura"; NaN]);
   ("Vazão (L/min)", [Num 60; Num 30; Num 45])].

(** The same file without the second row. *)
Definition gap_file : list (string * list value) :=
  [("Timestamp", [Str "1970-01-01 00:00:01"; NaN]);
   ("Vazão (L/min)", [Num 60; Num 45])].

(** ** Chronological order *)

(** [a] is not after [b]; [NaT] counts as after every instant. *)
Definition not_after (a b : Timestamp) : Prop := ts_le a b = true.

(** ** The DerivedReading of a row *)

(** The columns [preprocess] writes, in the order it writes them. *)
Definition DERIVED_COLUMNS : list string :=
  ["geral_lps"] ++ SENSOR_COLUMNS ++
  ["soma_sensores_lps"; "delta_s"; "volume_geral_l"; "volume_sensores_l"; "diff_lps"].


(** A frame with rows and the general-flow column, without sensor 4. *)
Definition week_frame_no_s4 : DataFrame :=
  mkDataFrame (DatetimeIndex week_times)
    (list_to_map
       ((GENERAL_FLOW_COL, [Num 60; Num 60]) ::
        ((λ c, (c, [Num 0; Num 0])) <$> ["S1 – Vazão (L/s)"; "S2 – Vazão (L/s)"; "S3- Vazão (L/s)"]))).

(** ** The aggregate frame in closed form *)


(** Two readings three minutes apart. *)
Definition sparse_times : list Timestamp := [At monday; At (monday + 180 * NS_PER_S)].

Definition sparse_frame : DataFrame :=
  mkDataFrame (DatetimeIndex sparse_times) (columns week_frame).



(** ** What [load_data] asks of [sort_values] *)

(** An order for [sort_values]: it names every row once and puts the keys
    in ascending order, [NaT] last. *)
Definition sorts (argsort : list Timestamp → list nat) : Prop :=
  ∀ ts, argsort ts ≡ₚ seq 0 (length ts) ∧
        StronglySorted not_after (take_rows (argsort ts) ts).

(** A file whose headers carry blanks (the general-flow header ends with a
    no-break space, U+00A0, and a space), without a column for sensor 4, and
    whose rows are out of order. *)
Definition padded_file : list (string * list value) :=
  [(" Timestamp", [Str "1970-01-01 00:00:02"; Str "1970-01-01 00:00:01"]);
   ("Vazão (L/min)  ", [Num 60; Num 30]);
   ("S1 – Vazão (L/s)", [Num 1; Num 0]);
   ("Pulsos", [Num 7; Num 3])].

(** A file without a timestamp column. *)
Definition headless_file : list (string * list value) :=
  [("Hora", [Str "1970-01-01 00:00:01"]);
   ("Vazão (L/min)", [Num 60])].



(** * Properties *)

(** ** The result monad *)

Lemma mapM_Ok {A B} (f : A → result B) (g : A → B) l :
  Forall (λ x, f x = Ok (g x)) l → mapM f l = Ok (g <$> l).
Proof.
  induction 1 as [|x l Hx _ IH]; [done|].
  cbn. rewrite Hx. cbn. rewrite IH. done.
Qed.

Lemma mapM_Ok_Forall2 {A B} (f : A → result B) l k :
  Forall2 (λ x y, f x = Ok y) l k → mapM f l = Ok k.
Proof.
  induction 1 as [|x y l k Hx _ IH]; [done|].
  cbn. rewrite Hx. cbn. rewrite IH. done.
Qed.

(** ** Runs *)

Section runs.
Context {A : Type} (P : A → Prop) `{!∀ x, Decision (P x)}.

Lemma runs_from_concat cur l rs :
  runs_from P cur l rs → concat rs = cur ++ filter P l.
Proof.
  induction 1 as [|cur ?|cur x l rs Hx _ IH|x l rs Hx _ IH|cur x l rs ? Hx _ IH].
  - done.
  - cbn. by rewrite !app_nil_r.
  - rewrite IH, filter_cons_True by done. by rewrite <-app_assoc.
  - by rewrite IH, filter_cons_False.
  - rewrite filter_cons_False by done. cbn. by rewrite IH.
Qed.


Lemma runs_from_nonempty cur l rs :
  runs_from P cur l rs → Forall (λ r, r ≠ []) rs.
Proof.
  induction 1; auto.
Qed.

(** The runs are determined by the input. *)
Lemma runs_from_unique cur l rs rs' :
  runs_from P cur l rs → runs_from P cur l rs' → rs = rs'.
Proof.
  intros Hr. revert rs'.
  induction Hr as [|cur ?|cur x l rs Hx _ IH|x l rs Hx _ IH|cur x l rs ? Hx _ IH];
    intros rs' Hr'; inversion Hr'; subst; try done; auto.
  f_equal. auto.
Qed.
End runs.

(** ** Rows read as DerivedReadings *)

Lemma reading_of_Some row rd :
  reading_of row = Some rd →
  row !! "diff_lps" = Some (Num (diff_lps rd)) ∧
  row !! "geral_lps" = Some (Num (geral_lps rd)) ∧
  row !! "soma_sensores_lps" = Some (Num (soma_sensores_lps rd)) ∧
  row !! "delta_s" = Some (Num (delta_s rd)) ∧
  row !! "volume_geral_l" = Some (Num (volume_geral_l rd)).
Proof.
  unfold reading_of. intros Hrd.
  repeat match type of Hrd with
  | context [?row !! ?c] =>
      destruct (row !! c) as [[]|]; cbn in Hrd; try discriminate Hrd
  end.
  by inversion Hrd.
Qed.

Lemma gt_Num x q : gt (Num x) q = Ok (bool_decide (q < x)%Q).
Proof.
  cbn. f_equal. destruct (Qle_bool x q) eqn:Hle; cbn.
  - apply Qle_bool_iff in Hle. rewrite bool_decide_eq_false_2; [done|].
    by apply Qle_not_lt.
  - rewrite bool_decide_eq_true_2; [done|].
    apply Qnot_le_lt. intros ?%Qle_bool_iff. congruence.
Qed.

Lemma eq_num_Num x q : eq_num (Num x) q = bool_decide (x == q)%Q.
Proof.
  cbn. destruct (Qeq_bool x q) eqn:Heq.
  - apply Qeq_bool_iff in Heq. by rewrite bool_decide_eq_true_2.
  - rewrite bool_decide_eq_false_2; [done|].
    intros ?%Qeq_bool_iff. congruence.
Qed.

Lemma anomalous_reads th t row rd :
  reading_of row = Some rd →
  anomalous th row = Ok (bool_decide (is_anomalous th (t, rd))).
Proof.
  intros (Hd & Hg & Hs & _)%reading_of_Some.
  unfold anomalous, row_get. rewrite Hd, Hg, Hs. cbn -[gt eq_num].
  rewrite eq_num_Num.
  rewrite (bool_decide_ext (is_anomalous th (t, rd))
             ((th < diff_lps rd)%Q ∨
              ((soma_sensores_lps rd == 0)%Q ∧ (0 < geral_lps rd)%Q))) by done.
  rewrite bool_decide_or, bool_decide_and.
  destruct (bool_decide (soma_sensores_lps rd == 0)%Q); cbn -[gt].
  - by rewrite !gt_Num.
  - by rewrite !gt_Num.
Qed.

Lemma rows_col_reads (f : reading → Q) c r os :
  (∀ row rd, reading_of row = Some rd → row !! c = Some (Num (f rd))) →
  Forall2 row_reads r os →
  rows_col r c = Ok ((λ o, Num (f o.2)) <$> os).
Proof.
  intros Hc Hr. apply mapM_Ok_Forall2, Forall2_fmap_r.
  eapply Forall2_impl; [exact Hr|].
  intros [l row] [t rd] [_ Hrd]; cbn in *.
  unfold row_get. by rewrite (Hc _ _ Hrd).
Qed.

Lemma series_sum_Num {A} (f : A → Q) l :
  series_sum ((λ o, Num (f o)) <$> l) = Ok (Qsum (f <$> l)).
Proof.
  induction l as [|x l IH]; [done|]. cbn. rewrite IH. done.
Qed.

Lemma Qmax_ub_l a b : (a <= Qmax a b)%Q.
Proof.
  unfold Qmax. destruct (Qle_bool a b) eqn:Hle.
  - by apply Qle_bool_iff.
  - apply Qle_refl.
Qed.

Lemma Qmax_ub_r a b : (b <= Qmax a b)%Q.
Proof.
  unfold Qmax. destruct (Qle_bool a b) eqn:Hle.
  - apply Qle_refl.
  - apply Qlt_le_weak, Qnot_le_lt. intros ?%Qle_bool_iff. congruence.
Qed.

Lemma Qmax_cases a b : Qmax a b = a ∨ Qmax a b = b.
Proof. unfold Qmax. destruct (Qle_bool a b); auto. Qed.

Lemma series_max_Num {A} (f : A → Q) l :
  l ≠ [] →
  ∃ m, series_max ((λ o, Num (f o)) <$> l) = Ok (Num m) ∧ is_max m (f <$> l).
Proof.
  induction l as [|x l IH]; [done|]. intros _. cbn.
  destruct l as [|y l].
  - exists (f x). split; [done|]. split; repeat constructor; apply Qle_refl.
  - destruct IH as (m & -> & Hex & Hall); [done|]. cbn.
    exists (Qmax (f x) m). split; [done|]. split.
    + destruct (Qmax_cases (f x) m) as [->| ->].
      * by left.
      * by right.
    + constructor; [apply Qmax_ub_l|].
      eapply Forall_impl; [exact Hall|]. cbn. intros z Hz.
      eapply Qle_trans; [exact Hz|apply Qmax_ub_r].
Qed.

Lemma forallb_eq_num {A} (f : A → Q) l :
  forallb (λ v, eq_num v 0) ((λ o, Num (f o)) <$> l)
  = bool_decide (Forall (λ o, f o == 0)%Q l).
Proof.
  induction l as [|x l IH]; [done|]. cbn -[eq_num].
  rewrite eq_num_Num, IH.
  rewrite (bool_decide_ext (Forall _ (x :: l)) _ (Forall_cons _ _ _)).
  by rewrite bool_decide_and.
Qed.

Lemma existsb_gt {A} (f : A → Q) l :
  ∃ pos, mapM (λ v, gt v 0) ((λ o, Num (f o)) <$> l) = Ok pos ∧
         existsb id pos = bool_decide (Exists (λ o, 0 < f o)%Q l).
Proof.
  induction l as [|x l (pos & IH & Hpos)].
  - exists []. split; [done|]. symmetry. apply bool_decide_eq_false_2.
    by intros ?%Exists_nil.
  - exists (bool_decide (0 < f x)%Q :: pos). split.
    + rewrite fmap_cons.
      change (mapM ?g (?a :: ?k)) with (y ← g a; k' ← mapM g k; mret (y :: k')).
      cbn beta. rewrite gt_Num, IH. done.
    + cbn. rewrite Hpos.
      rewrite (bool_decide_ext (Exists _ (x :: l)) _ (Exists_cons _ _ _)).
      by rewrite bool_decide_or.
Qed.

Lemma row_reads_labels r os :
  Forall2 row_reads r os → r.*1 = LTime <$> os.*1.
Proof.
  induction 1 as [|[l row] [t rd] r os [Hl _] _ IH]; [done|].
  cbn in *. by rewrite Hl, IH.
Qed.

Lemma summary_reads r os :
  Forall2 row_reads r os → os ≠ [] →
  ∃ ev, summary r = Ok ev ∧ summarises os ev.
Proof.
  intros Hr Hne.
  assert (∃ o0, head os = Some o0) as [o0 Ho0] by (destruct os; [done|eauto]).
  assert (∃ o1, last os = Some o1) as [o1 Ho1].
  { destruct (last os) eqn:Hl; [eauto|]. by apply last_None in Hl. }
  assert (Hlen : length r = length os) by by eapply Forall2_length.
  unfold summary.
  rewrite (row_reads_labels _ _ Hr), fmap_last, !length_fmap.
  rewrite <-!list_fmap_compose.
  replace (head ((LTime ∘ fst) <$> os)) with (Some (LTime o0.1))
    by (destruct os; naive_solver).
  rewrite fmap_last, Ho1. cbn [fmap option_fmap option_map compose].
  rewrite (rows_col_reads delta_s "delta_s" r os),
    (rows_col_reads diff_lps "diff_lps" r os),
    (rows_col_reads volume_geral_l "volume_geral_l" r os),
    (rows_col_reads soma_sensores_lps "soma_sensores_lps" r os),
    (rows_col_reads geral_lps "geral_lps" r os);
    try done; try (intros row rd Hrd; apply reading_of_Some in Hrd; tauto).
  destruct (series_max_Num (λ o : Timestamp * reading, diff_lps o.2) os Hne)
    as (m & Hm & Hmax).
  destruct (existsb_gt (λ o : Timestamp * reading, geral_lps o.2) os)
    as (pos & Hpos & Hex).
  cbn -[series_sum series_max forallb mapM Nat.ltb].
  rewrite Hm, !series_sum_Num, forallb_eq_num.
  cbn -[forallb mapM Nat.ltb].
  exists (mkLeakEvent (LTime o0.1) (LTime o1.1)
            (if 1 <? length os then total_seconds o1.1 o0.1
             else Num (Qsum ((λ o, delta_s o.2) <$> os)))
            (Num m)
            (if bool_decide (Forall (λ o, soma_sensores_lps o.2 == 0)%Q os) &&
                bool_decide (Exists (λ o, 0 < geral_lps o.2)%Q os)
             then hidden_leak else mismatch)
            (Qsum ((λ o, volume_geral_l o.2) <$> os))).
  split.
  - destruct (1 <? length os); cbn -[mapM].
    all: destruct (bool_decide (Forall _ os)); cbn -[mapM];
      [rewrite Hpos; cbn; rewrite Hex|]; reflexivity.
  - exists o0, o1. cbn. split_and!; try done.
    + destruct os as [|o [|o' os']]; try done. cbn in *.
      exists (delta_s o.2 + 0)%Q. split; [done|].
      injection Ho0 as <-. apply Qplus_0_r.
    + by exists m.
    + clear Hex. repeat case_bool_decide; cbn;
        (split; [try done; try discriminate|intros [? ?]; done]).
    + destruct (_ && _); auto.
Qed.

(** ** The loop of [detect_leaks] runs the state machine *)

Lemma scan_rows_runs th rows obs :
  Forall2 row_reads rows obs →
  ∀ alerts0 s0 cur ocur,
    Forall2 row_reads cur ocur →
    ∃ rs evs,
      (st ← scan_rows th (mkScan alerts0 (bool_decide (cur ≠ [])) s0 cur) rows;
       close_last st) = Ok (alerts0 ++ evs) ∧
      runs_from (is_anomalous th) ocur obs rs ∧
      Forall2 summarises rs evs.
Proof.
  induction 1 as [|r o rows obs Hro _ IH]; intros alerts0 s0 cur ocur Hcur.
  - cbn. unfold close_last; cbn.
    destruct Hcur as [|r o cur ocur Hro Hcur].
    + exists [], []. cbn. rewrite app_nil_r. repeat split; constructor.
    + destruct (summary_reads (r :: cur) (o :: ocur)) as (ev & Hev & Hsum);
        [by constructor|done|].
      exists [o :: ocur], [ev]. cbn in *. rewrite Hev. cbn.
      repeat split; repeat constructor; done.
  - cbn [scan_rows]. unfold scan_step at 1.
    destruct o as [t rd]. destruct Hro as [Hl Hrd]; cbn in Hl, Hrd.
    rewrite (anomalous_reads th t _ rd Hrd). cbn -[scan_rows close_last summary].
    case_bool_decide as Han.
    + destruct (IH alerts0 (if bool_decide (cur ≠ []) then s0 else Some r.1)
                  (cur ++ [r]) (ocur ++ [(t, rd)])) as (rs & evs & Hrun & Hrs & Hevs).
      { apply Forall2_app; [done|]. by repeat constructor. }
      exists rs, evs. split; [|split; [by constructor|done]].
      rewrite <-Hrun.
      rewrite (bool_decide_eq_true_2 (cur ++ [r] ≠ [])) by by destruct cur.
      destruct (decide (cur = [])) as [->|Hne].
      * by rewrite bool_decide_eq_false_2 by naive_solver.
      * by rewrite !(bool_decide_eq_true_2 _ Hne).
    + destruct (decide (cur = [])) as [->|Hne].
      * inversion Hcur; subst.
        destruct (IH alerts0 s0 [] []) as (rs & evs & Hrun & Hrs & Hevs);
          [constructor|].
        exists rs, evs. rewrite bool_decide_eq_false_2 in Hrun by naive_solver.
        rewrite bool_decide_eq_false_2 by naive_solver.
        split; [done|]. split; [by constructor|done].
      * rewrite !(bool_decide_eq_true_2 _ Hne).
        assert (ocur ≠ []) as Hone by (intros ->; by inversion Hcur).
        destruct (summary_reads cur ocur) as (ev & Hev & Hsum); [done..|].
        destruct (IH (alerts0 ++ [ev]) s0 [] []) as (rs & evs & Hrun & Hrs & Hevs);
          [constructor|].
        exists (ocur :: rs), (ev :: evs). cbn -[scan_rows close_last summary].
        rewrite Hev. cbn -[scan_rows close_last summary].
        rewrite bool_decide_eq_false_2 in Hrun by naive_solver.
        rewrite Hrun, <-app_assoc. split; [done|].
        split; [|by constructor].
        by apply runs_close.
Qed.

Lemma iterrows_reads df ts rds :
  index df = DatetimeIndex ts → readings df = Some rds →
  length rds = length ts ∧ Forall2 row_reads (iterrows df) (zip ts rds).
Proof.
  intros Hidx Hrd. unfold readings in Hrd. apply mapM_Some_1 in Hrd.
  assert (Hlen : length rds = length ts).
  { apply Forall2_length in Hrd. unfold iterrows in Hrd.
    rewrite length_imap, Hidx in Hrd. cbn in Hrd.
    by rewrite length_fmap in Hrd. }
  split; [done|].
  apply Forall2_same_length_lookup_2.
  - rewrite (Forall2_length _ _ _ Hrd). rewrite length_zip. lia.
  - intros i [l row] [t rd] Hi Ho.
    apply lookup_zip_with_Some in Ho as (t' & rd' & [= <- <-] & Ht & Hrdi).
    split; cbn.
    + unfold iterrows in Hi. rewrite list_lookup_imap, Hidx in Hi. cbn in Hi.
      rewrite list_lookup_fmap, Ht in Hi. by injection Hi as <- _.
    + by eapply (Forall2_lookup_lr _ _ _ i (l, row)) in Hrd.
Qed.

Lemma detect_leaks_runs df ts rds th :
  index df = DatetimeIndex ts → readings df = Some rds →
  ∃ rs evs,
    detect_leaks df th = Ok evs ∧
    maximal_runs (is_anomalous th) (zip ts rds) rs ∧
    Forall2 summarises rs evs.
Proof.
  intros Hidx Hrd.
  destruct (iterrows_reads df ts rds Hidx Hrd) as [Hlen Hrows].
  destruct (scan_rows_runs th _ _ Hrows [] None [] []) as (rs & evs & Hscan & Hrs & Hevs);
    [constructor|].
  rewrite bool_decide_eq_false_2 in Hscan by naive_solver.
  unfold detect_leaks. destruct (empty df) eqn:Hemp.
  - destruct ts as [|t ts].
    + destruct rds; [|done]. exists [], []. repeat split; constructor.
    + exfalso. destruct rds as [|rd rds]; [done|].
      unfold empty, nrows in Hemp. rewrite Hidx in Hemp. cbn in Hemp.
      apply bool_decide_eq_true in Hemp.
      unfold iterrows in Hrows. rewrite Hidx in Hrows. cbn in Hrows.
      inversion Hrows as [|r o ? ? [_ Hr] _]; subst.
      apply reading_of_Some in Hr as [Hr _]. cbn in Hr. unfold row_at in Hr.
      rewrite Hemp in Hr. by rewrite omap_empty, lookup_empty in Hr.
  - exists rs, evs. by rewrite Hscan.
Qed.

(** ** The leak detector *)

(** C1. On the scenario of the specification (readings at 0..4 s, general
    rate 0,0,1,1,0, sensor sum 0, one second elapsed each, threshold 0.2)
    [detect_leaks] returns exactly one event: a hidden leak from t2 to t3,
    of duration 1 s and volume 2 L. *)
Theorem detect_leaks_scenario :
  ∃ d,
    detect_leaks scenario (2 # 10) =
      Ok [mkLeakEvent (LTime (secs 2)) (LTime (secs 3)) (Num d) (Num 1) hidden_leak 2] ∧
    (d == 1)%Q.
Proof.
  eexists. split; [vm_compute; reflexivity|]. reflexivity.
Qed.

(** C2. On a frame of DerivedReadings the test of the loop is true on a row
    exactly when its discrepancy exceeds the threshold, or its sensor sum is
    zero while the general rate is positive; the emitted events stand, one
    for one and in order, for the maximal runs of consecutive readings that
    pass the test, each event reaching from the first to the last reading
    of its run; and the members of the runs are exactly the readings that
    pass the test. *)
Theorem anomaly_predicate_membership df ts rds th :
  index df = DatetimeIndex ts →
  readings df = Some rds →
  Forall2 (λ r o, ∃ b : bool, anomalous th r.2 = Ok b ∧
             (b = true ↔ (th < diff_lps o.2 ∨
                          (soma_sensores_lps o.2 == 0 ∧ 0 < geral_lps o.2))%Q))
    (iterrows df) (zip ts rds) ∧
  ∃ rs evs,
    detect_leaks df th = Ok evs ∧
    maximal_runs (λ o, (th < diff_lps o.2 ∨
                        (soma_sensores_lps o.2 == 0 ∧ 0 < geral_lps o.2))%Q)
      (zip ts rds) rs ∧
    Forall2 summarises rs evs ∧
    concat rs = filter (λ o, (th < diff_lps o.2 ∨
                              (soma_sensores_lps o.2 == 0 ∧ 0 < geral_lps o.2))%Q)
                  (zip ts rds).
Proof.
  intros Hidx Hrd. split.
  - destruct (iterrows_reads df ts rds Hidx Hrd) as [_ Hrows].
    eapply Forall2_impl; [exact Hrows|].
    intros [l row] [t rd] [_ Hr]; cbn in *.
    exists (bool_decide (is_anomalous th (t, rd))).
    split; [by apply anomalous_reads|]. apply bool_decide_eq_true.
  - destruct (detect_leaks_runs df ts rds th Hidx Hrd) as (rs & evs & Hd & Hrs & Hevs).
    exists rs, evs. split_and!; [done..|].
    rewrite (runs_from_concat _ _ _ _ Hrs). cbn.
    apply list_filter_iff. done.
Qed.

Lemma anomaly_predicate_membership_witness :
  ∃ rs evs,
    detect_leaks scenario THRESH_LPS = Ok evs ∧
    maximal_runs (λ o, (THRESH_LPS < diff_lps o.2 ∨
                        (soma_sensores_lps o.2 == 0 ∧ 0 < geral_lps o.2))%Q)
      (zip scenario_times scenario_readings) rs ∧
    Forall2 summarises rs evs ∧
    concat rs = filter (λ o, (THRESH_LPS < diff_lps o.2 ∨
                              (soma_sensores_lps o.2 == 0 ∧ 0 < geral_lps o.2))%Q)
                  (zip scenario_times scenario_readings).
Proof.
  apply (anomaly_predicate_membership scenario scenario_times scenario_readings
           THRESH_LPS); reflexivity.
Defined.



(** C4. Each emitted event stands for one maximal run of anomalous
    readings, and its type is [hidden_leak] when every member has a zero
    sensor sum and some member a positive general rate, [mismatch]
    otherwise; a run whose members all exceed the threshold with a non-zero
    sensor sum is a [mismatch]. *)
Theorem event_type_classification df ts rds th :
  index df = DatetimeIndex ts →
  readings df = Some rds →
  ∃ rs evs,
    detect_leaks df th = Ok evs ∧
    maximal_runs (is_anomalous th) (zip ts rds) rs ∧
    Forall2 (λ r ev,
      let hidden := Forall (λ o, soma_sensores_lps o.2 == 0)%Q r ∧
                    Exists (λ o, 0 < geral_lps o.2)%Q r in
      (hidden → type_ ev = hidden_leak) ∧
      (¬ hidden → type_ ev = mismatch) ∧
      (Forall (λ o, th < diff_lps o.2 ∧ ¬ soma_sensores_lps o.2 == 0)%Q r →
       type_ ev = mismatch)) rs evs.
Proof.
  intros Hidx Hrd.
  destruct (detect_leaks_runs df ts rds th Hidx Hrd) as (rs & evs & Hd & Hrs & Hevs).
  exists rs, evs. split_and!; [done..|].
  eapply Forall2_impl; [exact Hevs|].
  intros r ev (o0 & o1 & Hhead & _ & _ & _ & _ & _ & _ & Htyp & Hcases). cbn.
  assert (Hmis : ¬ (Forall (λ o, soma_sensores_lps o.2 == 0)%Q r ∧
                    Exists (λ o, 0 < geral_lps o.2)%Q r) → type_ ev = mismatch).
  { intros Hn. destruct Hcases as [?|Hh]; [done|]. by apply Htyp in Hh. }
  split_and!; [by apply Htyp|done|].
  intros Hall. apply Hmis. intros [Hz _].
  destruct r as [|o r]; [done|].
  inversion Hall as [|? ? [_ Hnz]]; subst. inversion Hz; subst. done.
Qed.

Lemma event_type_classification_witness :
  ∃ rs evs,
    detect_leaks scenario THRESH_LPS = Ok evs ∧
    maximal_runs (is_anomalous THRESH_LPS) (zip scenario_times scenario_readings) rs ∧
    Forall2 (λ r ev,
      let hidden := Forall (λ o, soma_sensores_lps o.2 == 0)%Q r ∧
                    Exists (λ o, 0 < geral_lps o.2)%Q r in
      (hidden → type_ ev = hidden_leak) ∧
      (¬ hidden → type_ ev = mismatch) ∧
      (Forall (λ o, THRESH_LPS < diff_lps o.2 ∧ ¬ soma_sensores_lps o.2 == 0)%Q r →
       type_ ev = mismatch)) rs evs.
Proof.
  apply (event_type_classification scenario scenario_times scenario_readings
           THRESH_LPS); reflexivity.
Defined.



(** ** Numeric columns *)

Lemma fillna_to_numeric s : fillna (to_numeric s) 0 = Num <$> (num0 <$> s).
Proof.
  unfold fillna, to_numeric. rewrite <-!list_fmap_compose.
  apply list_fmap_ext. by intros _ [] _.
Qed.

Lemma series_map_Num f qs : series_map f (Num <$> qs) = Ok (Num <$> (f <$> qs)).
Proof.
  unfold series_map. induction qs as [|q qs IH]; [done|].
  cbn in *. by rewrite IH.
Qed.

Lemma series_zip_Num f a b :
  series_zip f (Num <$> a) (Num <$> b) = Ok (Num <$> zip_with f a b).
Proof.
  unfold series_zip. revert b. induction a as [|x a IH]; intros [|y b]; try done.
  cbn. specialize (IH b). cbn in IH. rewrite IH. done.
Qed.

Lemma series_sum_Nums qs : series_sum (Num <$> qs) = Ok (Qsum qs).
Proof.
  rewrite <-(list_fmap_id qs) at 2. apply (series_sum_Num id).
Qed.

Lemma sum_axis1_Num n (qcols : list (list Q)) :
  sum_axis1 n ((λ c : list Q, Num <$> c) <$> qcols)
  = Ok (Num <$> ((λ i, Qsum (omap (λ col : list Q, col !! i) qcols)) <$> seq 0 n)).
Proof.
  unfold sum_axis1. rewrite <-list_fmap_compose.
  apply mapM_Ok, Forall_forall. intros i _.
  assert (omap (λ col : list value, col !! i) ((λ c : list Q, Num <$> c) <$> qcols)
          = Num <$> omap (λ col : list Q, col !! i) qcols) as ->.
  { induction qcols as [|c qcols IH]; [done|]. cbn.
    rewrite list_lookup_fmap. destruct (c !! i); cbn; by rewrite IH. }
  by rewrite series_sum_Nums.
Qed.

Lemma fillna_diff_seconds prev ts :
  fillna (diff_seconds prev ts) 1 = Num <$> deltas prev ts.
Proof.
  revert prev. induction ts as [|t ts IH]; intros prev; [done|].
  cbn. rewrite <-IH. f_equal.
  destruct prev as [[]|], t; done.
Qed.



(** ** Running [preprocess] on the store *)

Lemma run_bind {A B} (m : M A) (f : A → M B) h :
  (m ≫= f) h = match m h with
               | (Ok a, h') => f a h'
               | (Raise e, h') => (Raise e, h')
               end.
Proof. done. Qed.

Lemma deref_new h d : deref (length h) (h ++ [d]) = (Ok d, h ++ [d]).
Proof. unfold deref. by rewrite list_lookup_middle. Qed.

Lemma run_getitem {B} h d c col (k : list value → M B) :
  columns d !! c = Some col →
  (df_getitem (length h) c ≫= k) (h ++ [d]) = k col (h ++ [d]).
Proof.
  intros Hc. unfold df_getitem. rewrite !run_bind, deref_new.
  unfold lift, getitem. by rewrite Hc.
Qed.

Lemma run_get {B} h d c (k : option (list value) → M B) :
  (df_get (length h) c ≫= k) (h ++ [d]) = k (columns d !! c) (h ++ [d]).
Proof. unfold df_get. by rewrite !run_bind, deref_new. Qed.

Lemma run_setitem {B} h d c col (k : unit → M B) :
  (df_setitem (length h) c col ≫= k) (h ++ [d])
  = k () (h ++ [set_column d c col]).
Proof.
  unfold df_setitem. rewrite !run_bind, deref_new. unfold assign.
  rewrite insert_app_r_alt by lia. by rewrite Nat.sub_diag.
Qed.

Lemma run_index {B} h d (k : Index → M B) :
  (df_index (length h) ≫= k) (h ++ [d]) = k (index d) (h ++ [d]).
Proof. unfold df_index. by rewrite !run_bind, deref_new. Qed.

Lemma run_lift {A B} (r : result A) a (k : A → M B) h :
  r = Ok a → (lift r ≫= k) h = k a h.
Proof. by intros ->. Qed.

Lemma run_sum_axis1 {B} h d cs cols out (k : list value → M B) :
  mapM (getitem d) cs = Ok cols →
  sum_axis1 (nrows d) cols = Ok out →
  (df_sum_axis1 (length h) cs ≫= k) (h ++ [d]) = k out (h ++ [d]).
Proof.
  intros Hc Hs. unfold df_sum_axis1. rewrite !run_bind, deref_new.
  unfold lift. rewrite Hc. cbn. by rewrite Hs.
Qed.

Lemma getitem_Ok d c col : columns d !! c = Some col → getitem d c = Ok col.
Proof. unfold getitem. by intros ->. Qed.

Lemma run_empty {B} h r df (k : bool → M B) :
  h !! r = Some df → (df_empty r ≫= k) h = k (empty df) h.
Proof. intros Hr. unfold df_empty, deref. by rewrite !run_bind, Hr. Qed.

Lemma run_copy {B} h r df (k : loc → M B) :
  h !! r = Some df → (df_copy r ≫= k) h = k (length h) (h ++ [df]).
Proof. intros Hr. unfold df_copy, deref, alloc. by rewrite !run_bind, Hr. Qed.

Ltac col_lookup :=
  cbn [columns set_column foldl fst snd];
  repeat (rewrite lookup_insert_ne by done);
  first [apply lookup_insert_eq | eassumption].

Lemma setitem_new h d c col :
  df_setitem (length h) c col (h ++ [d]) = (Ok (), h ++ [set_column d c col]).
Proof.
  unfold df_setitem. rewrite run_bind, deref_new. unfold assign.
  rewrite insert_app_r_alt by lia. by rewrite Nat.sub_diag.
Qed.

Lemma run_sensor_loop h cs :
  ∀ d ss,
    Forall2 (λ c s, columns d !! c = Some s) cs ss → NoDup cs →
    for_each cs (λ s,
        c ← df_get (length h) s;
        match c with
        | Some col => df_setitem (length h) s (fillna (to_numeric col) 0)
        | None => lift (Raise AttributeError)
        end) (h ++ [d])
    = (Ok (), h ++ [foldl (λ d (c : string * list Q), set_column d c.1 (Num <$> c.2)) d
                      (zip cs ((λ s : list value, num0 <$> s) <$> ss))]).
Proof.
  induction cs as [|c cs IH]; intros d ss Hss Hnd.
  - by inversion Hss.
  - inversion Hss as [|? s ? ss' Hc Hss']; subst.
    apply NoDup_cons in Hnd as [Hc' Hnd].
    cbn [for_each]. rewrite run_bind, run_get, Hc, fillna_to_numeric, setitem_new.
    rewrite (IH _ ss'); [done| |done].
    apply Forall2_same_length_lookup_2; [by eapply Forall2_length|].
    intros i c' s' Hi Hi'. cbn.
    rewrite lookup_insert_ne.
    + exact (Forall2_lookup_lr _ _ _ _ _ _ Hss' Hi Hi').
    + intros ->. apply Hc'. by eapply list_elem_of_lookup_2.
Qed.

Lemma preprocess_run h r df ts g s1 s2 s3 s4 :
  h !! r = Some df →
  index df = DatetimeIndex ts →
  ts ≠ [] →
  columns df !! GENERAL_FLOW_COL = Some g →
  Forall2 (λ c s, columns df !! c = Some s) SENSOR_COLUMNS [s1; s2; s3; s4] →
  preprocess r h = (Ok (length h), h ++ [derive df ts g [s1; s2; s3; s4]]).
Proof.
  intros Hr Hidx Hts Hg Hs.
  apply Forall2_cons_1 in Hs as [H1 Hs]. apply Forall2_cons_1 in Hs as [H2 Hs].
  apply Forall2_cons_1 in Hs as [H3 Hs]. apply Forall2_cons_1 in Hs as [H4 _].
  assert (Hne : empty df = false).
  { unfold empty, nrows. rewrite Hidx. cbn. destruct ts; [done|]. cbn.
    apply bool_decide_eq_false_2. intros He. by rewrite He in Hg. }
  unfold preprocess.
  rewrite (run_empty _ _ _ _ Hr), Hne.
  rewrite (run_copy _ _ _ _ Hr).
  rewrite (run_getitem _ _ _ g) by done.
  rewrite fillna_to_numeric.
  erewrite run_lift by apply series_map_Num.
  rewrite run_setitem.
  rewrite run_bind, (run_sensor_loop _ _ _ [s1; s2; s3; s4]); cycle 1.
  { unfold SENSOR_COLUMNS. repeat constructor; col_lookup. }
  { apply (bool_decide_unpack _). vm_compute. exact I. }
  set (G := (λ v, div60 (num0 v)) <$> g).
  set (S := (λ s : list value, num0 <$> s) <$> [s1; s2; s3; s4]).
  rewrite (run_sum_axis1 _ _ _ ((λ c : list Q, Num <$> c) <$> S)
             (Num <$> ((λ i, Qsum (omap (λ col : list Q, col !! i) S)) <$>
                         seq 0 (length ts)))); cycle 1.
  { unfold SENSOR_COLUMNS, S. apply mapM_Ok_Forall2.
    cbn [zip_with fmap list_fmap foldl fst snd].
    repeat (apply Forall2_cons_2; [apply getitem_Ok; col_lookup|]).
    apply Forall2_nil_2. }
  { rewrite <-sum_axis1_Num. f_equal.
    unfold SENSOR_COLUMNS, S, nrows. cbn. by rewrite Hidx. }
  unfold SENSOR_COLUMNS, S. cbn [zip_with fmap list_fmap foldl fst snd].
  rewrite run_setitem, run_index. cbn [index set_column]. rewrite Hidx.
  erewrite run_lift by reflexivity.
  rewrite fillna_diff_seconds, run_setitem.
  do 2 (erewrite run_getitem by col_lookup).
  erewrite run_lift by apply series_zip_Num.
  rewrite run_setitem.
  do 2 (erewrite run_getitem by col_lookup).
  erewrite run_lift by apply series_zip_Num.
  rewrite run_setitem.
  do 2 (erewrite run_getitem by col_lookup).
  erewrite run_lift; cycle 1.
  { rewrite series_zip_Num. cbn. apply series_map_Num. }
  rewrite run_setitem.
  unfold derive, SENSOR_COLUMNS, mret, M_ret.
  cbn [zip_with fmap list_fmap foldl fst snd app].
  by rewrite <-!list_fmap_compose.
Qed.

Lemma preprocess_empty h r df :
  h !! r = Some df → empty df = true → preprocess r h = (Ok r, h).
Proof.
  intros Hr He. unfold preprocess. by rewrite (run_empty _ _ _ _ Hr), He.
Qed.



(** ** Frame: what [preprocess] leaves alone *)

Section triples.
Context (P : store → Prop).

Lemma keeps_bind {A B} (m : M A) (f : A → M B) Q R :
  keeps P m Q → (∀ a, Q a → keeps P (f a) R) → keeps P (m ≫= f) R.
Proof.
  intros Hm Hf h Hh. rewrite run_bind.
  destruct (Hm h Hh) as [Hp Hq]. destruct (m h) as [[a|e] h']; cbn in *.
  - by apply Hf, Hp; auto.
  - split; [done|]. intros ? [=].
Qed.

Lemma keeps_ret {A} (a : A) (Q : A → Prop) : Q a → keeps P (mret a) Q.
Proof. intros Ha h Hh. split; [done|]. by intros ? [= <-]. Qed.

Lemma keeps_lift {A} (r : result A) : keeps P (lift r) (λ _, True).
Proof. intros h Hh. by split. Qed.

Lemma keeps_deref r : keeps P (deref r) (λ _, True).
Proof. intros h Hh. unfold deref. by destruct (h !! r). Qed.

Lemma keeps_for_each {A} (xs : list A) body :
  (∀ x, keeps P (body x) (λ _, True)) → keeps P (for_each xs body) (λ _, True).
Proof.
  intros Hb. induction xs as [|x xs IH]; cbn [for_each].
  - by apply keeps_ret.
  - eapply keeps_bind; [apply Hb|]. by intros.
Qed.
End triples.

Section frame.
Context (h0 : store).

Lemma keeps_alloc df : keeps (untouched h0) (alloc df) (λ r, length h0 ≤ r).
Proof.
  intros h Hh. unfold alloc; cbn. split.
  - by apply prefix_app_r.
  - intros a [= <-]. by apply prefix_length.
Qed.

Lemma keeps_assign r df :
  length h0 ≤ r → keeps (untouched h0) (assign r df) (λ _, True).
Proof.
  intros Hr h [k ->]. unfold assign; cbn. split; [|done].
  rewrite insert_app_r_alt by done. by eexists.
Qed.

Lemma keeps_getitem r c : keeps (untouched h0) (df_getitem r c) (λ _, True).
Proof.
  unfold df_getitem. eapply keeps_bind; [apply keeps_deref|].
  intros. apply keeps_lift.
Qed.

Lemma keeps_setitem r c col :
  length h0 ≤ r → keeps (untouched h0) (df_setitem r c col) (λ _, True).
Proof.
  intros Hr. unfold df_setitem. eapply keeps_bind; [apply keeps_deref|].
  intros. by apply keeps_assign.
Qed.

Lemma keeps_deref_old r df :
  h0 !! r = Some df → keeps (untouched h0) (deref r) (λ d, d = df).
Proof.
  intros Hr h Hh. unfold deref.
  rewrite (prefix_lookup_Some _ _ _ _ Hr Hh). cbn. split; [done|].
  by intros ? [= <-].
Qed.

Lemma keeps_preprocess r df :
  h0 !! r = Some df →
  keeps (untouched h0) (preprocess r) (λ r', empty df = false → length h0 ≤ r').
Proof.
  intros Hr. unfold preprocess.
  eapply keeps_bind.
  { unfold df_empty. eapply keeps_bind; [by apply keeps_deref_old|].
    intros d ->. by apply (keeps_ret _ _ (λ e, e = empty df)). }
  intros e ->. cbn beta. destruct (empty df) eqn:He; [by apply keeps_ret|].
  eapply keeps_bind.
  { unfold df_copy. eapply keeps_bind; [apply keeps_deref|].
    intros. apply keeps_alloc. }
  intros r' Hr'. cbn beta in Hr'.
  repeat first
    [ by apply keeps_ret
    | eapply keeps_bind;
      [ first
          [ apply keeps_getitem
          | by apply keeps_setitem
          | apply keeps_lift
          | apply keeps_for_each; intros s;
            eapply keeps_bind;
            [ unfold df_get; eapply keeps_bind; [apply keeps_deref|];
              intros; by apply (keeps_ret _ _ (λ _, True))
            | intros [col|] _; [by apply keeps_setitem|apply keeps_lift] ]
          | unfold df_sum_axis1; eapply keeps_bind; [apply keeps_deref|];
            intros; apply keeps_lift
          | unfold df_index; eapply keeps_bind; [apply keeps_deref|];
            intros; by apply (keeps_ret _ _ (λ _, True)) ]
      | intros ? _ ] ].
Qed.
End frame.

(** C10. [preprocess] leaves its argument as it was: after the call, the
    caller's frame, like every frame that was in the store, holds the same
    index, columns and cells; and when the frame is not empty the frame
    returned is a new object, not the argument. *)
Theorem preprocess_leaves_argument h r df :
  h !! r = Some df →
  (preprocess r h).2 !! r = Some df ∧
  (∀ r0 d0, h !! r0 = Some d0 → (preprocess r h).2 !! r0 = Some d0) ∧
  (empty df = false →
   ∀ r', (preprocess r h).1 = Ok r' → r' ≠ r ∧ h !! r' = None).
Proof.
  intros Hr.
  destruct (keeps_preprocess h r df Hr h) as [Hpre Hres]; [done|].
  split_and!.
  - by eapply prefix_lookup_Some.
  - intros r0 d0 H0. by eapply prefix_lookup_Some.
  - intros He r' Hr'. specialize (Hres r' Hr' He).
    apply lookup_lt_Some in Hr. split; [lia|]. by apply lookup_ge_None.
Qed.

Lemma preprocess_leaves_argument_witness :
  (preprocess 0 [scenario_raw]).2 !! 0 = Some scenario_raw ∧
  (∀ r0 d0, [scenario_raw] !! r0 = Some d0 →
            (preprocess 0 [scenario_raw]).2 !! r0 = Some d0) ∧
  (empty scenario_raw = false →
   ∀ r', (preprocess 0 [scenario_raw]).1 = Ok r' →
         r' ≠ 0 ∧ [scenario_raw] !! r' = None).
Proof.
  apply (preprocess_leaves_argument [scenario_raw] 0 scenario_raw). reflexivity.
Defined.

(** ** The loader *)

Lemma mapM_Raise {A B} (f : A → result B) e l :
  Forall (λ x, (∃ y, f x = Ok y) ∨ f x = Raise e) l →
  Exists (λ x, f x = Raise e) l →
  mapM f l = Raise e.
Proof.
  induction 1 as [|x l Hx _ IH]; intros Hex; [by apply Exists_nil in Hex|].
  cbn. destruct Hx as [[y Hy]| ->]; [|done].
  rewrite Hy. cbn. apply Exists_cons in Hex as [Hex|Hex]; [congruence|].
  by rewrite IH.
Qed.

(** Whatever the reader and the order: one timestamp text that the reader
    rejects makes [load_data] raise. *)
Lemma load_data_unreadable strptime argsort fs path file (raw : list value) (i : nat) s :
  fs !! path = Some file →
  columns (strip_columns (frame_of file)) !! TIMESTAMP_COL = Some raw →
  raw !! i = Some (Str s) →
  strptime s = None →
  load_data strptime argsort fs path = Raise ValueError.
Proof.
  intros Hf Hraw Hi Hs. unfold load_data. rewrite Hf.
  destruct file as [|c file]; [done|]. cbn [read_csv mbind result_bind].
  unfold getitem. rewrite Hraw. cbn.
  unfold to_datetime. rewrite (mapM_Raise _ ValueError); [done| |].
  - apply Forall_forall. intros [q| |s'] _; cbn; eauto.
    + repeat case_bool_decide; eauto.
    + destruct (strptime s'); eauto.
  - apply Exists_exists. exists (Str s). split.
    + by eapply list_elem_of_lookup_2.
    + cbn. by rewrite Hs.
Qed.

(** C7. The loader does not discard a row whose timestamp cannot be read:
    on a file with such a row it raises [ValueError], and a row with no
    timestamp at all is kept, last, at [NaT]. *)
Theorem load_data_unparsed_timestamp :
  load_data iso_strptime stable_argsort {[DATA_PATH := bad_file]} DATA_PATH
    = Raise ValueError ∧
  ∃ df, load_data iso_strptime stable_argsort {[DATA_PATH := gap_file]} DATA_PATH = Ok df ∧
        index df = DatetimeIndex [At NS_PER_S; NaT] ∧
        columns df !! GENERAL_FLOW_COL = Some [Num 60; Num 45].
Proof.
  split.
  - apply (load_data_unreadable _ _ _ _ bad_file
             [Str "1970-01-01 00:00:01"; Str "sem leitura"; NaN] 1 "sem leitura");
      reflexivity.
  - eexists. split; [vm_compute; reflexivity|]. split; reflexivity.
Qed.

(** ** Empty input *)

Lemma aggregate_period_empty df f : empty df = true → aggregate_period df f = Ok df.
Proof. intros He. unfold aggregate_period. by rewrite He. Qed.

Lemma detect_leaks_empty df th : empty df = true → detect_leaks df th = Ok [].
Proof. intros He. unfold detect_leaks. by rewrite He. Qed.

(** C9. A missing file loads as an empty frame, without raising; and on an
    empty frame [preprocess] and [aggregate_period] return the frame itself
    and [detect_leaks] returns no event, without raising. *)
Theorem empty_input_propagates strptime argsort (fs : gmap string (list (string * list value)))
    path h r df f th :
  fs !! path = None →
  h !! r = Some df →
  empty df = true →
  load_data strptime argsort fs path = Ok no_data ∧
  empty no_data = true ∧
  nrows no_data = 0 ∧
  preprocess r h = (Ok r, h) ∧
  aggregate_period df f = Ok df ∧
  detect_leaks df th = Ok [].
Proof.
  intros Hf Hr He. split_and!.
  - unfold load_data. by rewrite Hf.
  - done.
  - done.
  - by apply (preprocess_empty _ _ df).
  - by apply aggregate_period_empty.
  - by apply detect_leaks_empty.
Qed.

Lemma empty_input_propagates_witness :
  load_data iso_strptime stable_argsort ∅ DATA_PATH = Ok no_data ∧
  empty no_data = true ∧
  nrows no_data = 0 ∧
  preprocess 0 [no_data] = (Ok 0, [no_data]) ∧
  aggregate_period no_data H = Ok no_data ∧
  detect_leaks no_data THRESH_LPS = Ok [].
Proof.
  apply (empty_input_propagates iso_strptime stable_argsort ∅ DATA_PATH
           [no_data] 0 no_data H THRESH_LPS); reflexivity.
Defined.

(** ** The aggregator *)

Local Open Scope Z_scope.

Lemma bin_cells_Num f l ts qs :
  bin_cells f l ts (Num <$> qs) = Num <$> bin_values f l ts qs.
Proof.
  unfold bin_cells, bin_values. revert qs.
  induction ts as [|t ts IH]; intros [|q qs]; try done.
  cbn [fmap list_fmap zip_with]. rewrite !filter_cons. cbn [fst].
  destruct (decide (in_bin f l t = true)); cbn [fmap list_fmap snd];
    by rewrite <-IH.
Qed.

Lemma resample_sum_Num f ts df c qs :
  columns df !! c = Some (Num <$> qs) →
  resample_sum f ts df c
  = Ok (Num <$> ((λ l, Qsum (bin_values f l ts qs)) <$> bins f ts)).
Proof.
  intros Hc. unfold resample_sum, getitem. rewrite Hc. cbn.
  rewrite <-list_fmap_compose. apply mapM_Ok, Forall_forall. intros l _.
  by rewrite bin_cells_Num, series_sum_Nums.
Qed.





(** *** The calendar: bins follow time *)










(** *** Months *)













(** *** The labels of the bins are the keys of the buckets *)





Lemma instants_dated ts ns : At ns ∈ ts → instants ts ≠ [].
Proof.
  intros Hin He.
  assert (ns ∈ instants ts) as Hns.
  { unfold instants. apply list_elem_of_omap. by exists (At ns). }
  rewrite He in Hns. by apply elem_of_nil in Hns.
Qed.

(** The frame [aggregate_period] builds from numeric columns, on an index
    with an instant. *)
Lemma aggregate_period_run df ts freq vg vs q1 q2 q3 q4 :
  index df = DatetimeIndex ts →
  instants ts ≠ [] →
  Forall2 (λ c qs, columns df !! c = Some (Num <$> qs))
    (["volume_geral_l"; "volume_sensores_l"] ++ SENSOR_COLUMNS)
    [vg; vs; q1; q2; q3; q4] →
  ∃ agg,
    aggregate_period df freq = Ok agg ∧
    index agg = DatetimeIndex (At <$> bins freq ts) ∧
    Forall2 (λ c qs, columns agg !! c = Some (Num <$> bucket_sums freq ts qs))
      (["volume_geral_l"; "volume_sensores_l"] ++ SENSOR_COLUMNS)
      [vg; vs; q1; q2; q3; q4] ∧
    columns agg !! "m3" = Some (Num <$> (div1000 <$> bucket_sums freq ts vg)) ∧
    columns agg !! "custo_R$"
      = Some (Num <$> ((λ q, q * TARIFA_POR_M3)%Q <$> (div1000 <$> bucket_sums freq ts vg))).
Proof.
  intros Hidx Hts Hcols. unfold SENSOR_COLUMNS in Hcols. cbn [app] in Hcols.
  apply Forall2_cons_1 in Hcols as [Hvg Hcols]. apply Forall2_cons_1 in Hcols as [Hvs Hcols].
  apply Forall2_cons_1 in Hcols as [H1 Hcols]. apply Forall2_cons_1 in Hcols as [H2 Hcols].
  apply Forall2_cons_1 in Hcols as [H3 Hcols]. apply Forall2_cons_1 in Hcols as [H4 _].
  assert (Hne : empty df = false).
  { unfold empty, nrows. rewrite Hidx. destruct ts; [done|]. cbn.
    apply bool_decide_eq_false_2. intros He. by rewrite He in Hvg. }
  unfold aggregate_period. rewrite Hne, Hidx.
  destruct (instants ts) as [|i0 rest] eqn:Hi; [done|].
  unfold SENSOR_COLUMNS. cbn [app].
  pose (sums := λ qs : list Q, Num <$> bucket_sums freq ts qs).
  rewrite (mapM_Ok_Forall2 _ _
             [("volume_geral_l", sums vg); ("volume_sensores_l", sums vs);
              ("S1 – Vazão (L/s)", sums q1); ("S2 – Vazão (L/s)", sums q2);
              ("S3- Vazão (L/s)", sums q3); ("S4 – Vazão (L/s)", sums q4)]); cycle 1.
  { repeat (apply Forall2_cons_2;
              [erewrite resample_sum_Num by done; reflexivity|]).
    apply Forall2_nil_2. }
  unfold sums.
  cbn [mbind result_bind mret result_ret list_to_map foldr fst snd curry].
  erewrite getitem_Ok by apply lookup_insert_eq. cbn [mbind result_bind].
  rewrite series_map_Num. cbn [mbind result_bind].
  erewrite getitem_Ok by apply lookup_insert_eq. cbn [mbind result_bind].
  rewrite series_map_Num. cbn [mbind result_bind].
  eexists. split; [reflexivity|]. cbn [columns set_column index].
  split_and!; [done| | |].
  - repeat (apply Forall2_cons_2;
              [rewrite ?lookup_insert_ne by done; by rewrite lookup_insert_eq|]).
    apply Forall2_nil_2.
  - by rewrite lookup_insert_ne, lookup_insert_eq.
  - by rewrite lookup_insert_eq.
Qed.




(** * Further properties *)

(** ** The leak detector: what it emits, and when it raises *)

Local Open Scope nat_scope.

Lemma Qsum_app a b : (Qsum (a ++ b) == Qsum a + Qsum b)%Q.
Proof.
  induction a as [|x a IH]; cbn.
  - by rewrite Qplus_0_l.
  - fold (Qsum (a ++ b)). fold (Qsum a). rewrite IH. apply Qplus_assoc.
Qed.

Lemma Qsum_concat (ls : list (list Q)) :
  (Qsum (concat ls) == Qsum (Qsum <$> ls))%Q.
Proof.
  induction ls as [|l ls IH]; [done|].
  cbn. fold (Qsum (Qsum <$> ls)). by rewrite Qsum_app, IH.
Qed.

Lemma concat_nil_nonempty {A} (ls : list (list A)) :
  Forall (λ l, l ≠ []) ls → concat ls = [] → ls = [].
Proof.
  destruct 1 as [|l ls Hl _]; [done|]. cbn. intros Hc.
  by apply app_eq_nil in Hc as [-> _].
Qed.

(** X1. [detect_leaks] returns no event exactly when no reading is
    anomalous. *)
Theorem detect_leaks_silent_iff df ts rds th :
  index df = DatetimeIndex ts →
  readings df = Some rds →
  ∃ evs, detect_leaks df th = Ok evs ∧
         (evs = [] ↔ Forall (λ o, ¬ is_anomalous th o) (zip ts rds)).
Proof.
  intros Hidx Hrd.
  destruct (detect_leaks_runs df ts rds th Hidx Hrd) as (rs & evs & Hd & Hrs & Hevs).
  exists evs. split; [done|].
  pose proof (runs_from_concat _ _ _ _ Hrs) as Hc. cbn in Hc.
  pose proof (runs_from_nonempty _ _ _ _ Hrs) as Hne.
  split.
  - intros ->. apply Forall2_nil_inv_r in Hevs as ->. cbn in Hc.
    symmetry in Hc. apply Forall_forall. intros o Ho Han.
    assert (o ∈ filter (is_anomalous th) (zip ts rds)) as Hin
      by by apply list_elem_of_filter.
    rewrite Hc in Hin. by apply elem_of_nil in Hin.
  - intros Hall.
    assert (filter (is_anomalous th) (zip ts rds) = []) as Hf.
    { apply elem_of_nil_inv. intros o [Han Ho]%list_elem_of_filter.
      by eapply (proj1 (Forall_forall _ _) Hall). }
    rewrite Hf in Hc. apply concat_nil_nonempty in Hc as ->; [|done].
    by apply Forall2_nil_inv_l in Hevs.
Qed.

Lemma detect_leaks_silent_iff_witness :
  ∃ evs, detect_leaks scenario THRESH_LPS = Ok evs ∧
         (evs = [] ↔ Forall (λ o, ¬ is_anomalous THRESH_LPS o)
                       (zip scenario_times scenario_readings)).
Proof.
  apply (detect_leaks_silent_iff scenario scenario_times scenario_readings THRESH_LPS);
    reflexivity.
Defined.

(** The events account for the anomalous readings, and for them only. *)
Lemma detect_leaks_total df ts rds th :
  index df = DatetimeIndex ts →
  readings df = Some rds →
  ∃ evs, detect_leaks df th = Ok evs ∧
         length evs ≤ length (filter (is_anomalous th) (zip ts rds)) ∧
         (Qsum (volume_l <$> evs)
          == Qsum ((λ o, volume_geral_l o.2) <$> filter (is_anomalous th) (zip ts rds)))%Q.
Proof.
  intros Hidx Hrd.
  destruct (detect_leaks_runs df ts rds th Hidx Hrd) as (rs & evs & Hd & Hrs & Hevs).
  exists evs. split; [done|].
  pose proof (runs_from_concat _ _ _ _ Hrs) as Hc. cbn in Hc. rewrite <-Hc.
  pose proof (runs_from_nonempty _ _ _ _ Hrs) as Hne.
  clear Hd Hrs Hc. induction Hevs as [|r ev rs evs Hsum _ IH]; [done|].
  apply Forall_cons in Hne as [Hr Hne]. destruct (IH Hne) as [IHl IHs].
  cbn [concat fmap list_fmap]. rewrite length_app, fmap_app. split.
  - cbn. destruct r; [done|]. cbn. lia.
  - rewrite Qsum_app. cbn [Qsum foldr]. fold (Qsum (volume_l <$> evs)).
    rewrite IHs.
    destruct Hsum as (_ & _ & _ & _ & _ & _ & _ & _ & Hvol & _).
    by rewrite Hvol.
Qed.

(** X2. Nothing is counted twice or lost: there are at most as many events
    as anomalous readings, and the volumes of the events add up to the
    general volume of the anomalous readings. *)
Theorem detect_leaks_volume_conserved df ts rds th :
  index df = DatetimeIndex ts →
  readings df = Some rds →
  ∃ evs, detect_leaks df th = Ok evs ∧
         length evs ≤ length (filter (is_anomalous th) (zip ts rds)) ∧
         (Qsum (volume_l <$> evs)
          == Qsum ((λ o, volume_geral_l o.2) <$> filter (is_anomalous th) (zip ts rds)))%Q.
Proof. apply detect_leaks_total. Qed.

Lemma detect_leaks_volume_conserved_witness :
  ∃ evs, detect_leaks scenario THRESH_LPS = Ok evs ∧
         length evs ≤ length (filter (is_anomalous THRESH_LPS)
                                (zip scenario_times scenario_readings)) ∧
         (Qsum (volume_l <$> evs)
          == Qsum ((λ o, volume_geral_l o.2) <$>
                     filter (is_anomalous THRESH_LPS)
                       (zip scenario_times scenario_readings)))%Q.
Proof.
  apply (detect_leaks_volume_conserved scenario scenario_times scenario_readings
           THRESH_LPS); reflexivity.
Defined.

#[local] Instance not_after_refl : Reflexive not_after.
Proof. intros [x|]; unfold not_after; cbn; [lia|done]. Qed.

#[local] Instance not_after_trans : Transitive not_after.
Proof.
  intros [x|] [y|] [z|]; unfold not_after; cbn; try done. lia.
Qed.

Lemma StronglySorted_filter {A} (R : relation A) (P : A → Prop)
    `{!∀ x, Decision (P x)} l :
  StronglySorted R l → StronglySorted R (filter P l).
Proof.
  induction 1 as [|x l _ IH Hx]; [constructor|].
  rewrite filter_cons. destruct (decide (P x)); [|done].
  constructor; [done|]. apply Forall_forall.
  intros y [_ Hy]%list_elem_of_filter. by eapply (proj1 (Forall_forall _ _) Hx).
Qed.

Lemma StronglySorted_zip_fst {A B} (R : relation A) (l : list A) (k : list B) :
  StronglySorted R l → StronglySorted (λ a b, R a.1 b.1) (zip l k).
Proof.
  intros Hl. revert k. induction Hl as [|x l _ IH Hx]; intros [|y k]; try constructor.
  - apply IH.
  - apply Forall_forall. intros [a b] Hab. cbn.
    apply elem_of_zip_l in Hab. by eapply (proj1 (Forall_forall _ _) Hx).
Qed.

Lemma StronglySorted_concat_lookup {A} (R : relation A) (ls : list (list A)) i j li lj x y :
  StronglySorted R (concat ls) →
  i < j → ls !! i = Some li → ls !! j = Some lj → x ∈ li → y ∈ lj → R x y.
Proof.
  revert i j. induction ls as [|l ls IH]; intros i j Hs Hij Hi Hj Hx Hy; [done|].
  cbn in Hs. destruct j as [|j]; [lia|]. cbn in Hj. destruct i as [|i].
  - cbn in Hi. injection Hi as ->.
    eapply StronglySorted_app_1_elem_of; [exact Hs|done|].
    apply list_elem_of_In, in_concat. exists lj. split; apply list_elem_of_In; [|done].
    by eapply list_elem_of_lookup_2.
  - cbn in Hi. apply (IH i j); try done; [|lia].
    by eapply StronglySorted_app_1_r.
Qed.

(** X3. When the timestamps of the frame ascend, the events come out oldest
    first and do not overlap: an event does not end before it starts, and
    it ends no later than the next one starts. *)
Theorem detect_leaks_chronological df ts rds th :
  index df = DatetimeIndex ts →
  readings df = Some rds →
  StronglySorted not_after ts →
  ∃ evs, detect_leaks df th = Ok evs ∧
    (∀ i ev, evs !! i = Some ev →
       ∃ t0 t1, start ev = LTime t0 ∧ end_ ev = LTime t1 ∧ not_after t0 t1) ∧
    (∀ i j ei ej, i < j → evs !! i = Some ei → evs !! j = Some ej →
       ∃ t1 t0, end_ ei = LTime t1 ∧ start ej = LTime t0 ∧ not_after t1 t0).
Proof.
  intros Hidx Hrd Hts.
  destruct (detect_leaks_runs df ts rds th Hidx Hrd) as (rs & evs & Hd & Hrs & Hevs).
  exists evs. split; [done|].
  assert (Hsorted : StronglySorted (λ a b : Timestamp * reading, not_after a.1 b.1)
                      (concat rs)).
  { rewrite (runs_from_concat _ _ _ _ Hrs). cbn.
    by apply StronglySorted_filter, StronglySorted_zip_fst. }
  split.
  - intros i ev Hev.
    destruct (Forall2_lookup_r _ _ _ _ _ Hevs Hev) as (r & Hr & Hsum).
    destruct Hsum as (o0 & o1 & Hhead & Hlast & Hst & Hend & _).
    exists o0.1, o1.1. split_and!; [done..|].
    assert (StronglySorted (λ a b : Timestamp * reading, not_after a.1 b.1) r) as Hsr.
    { apply (list_elem_of_split_length rs i r) in Hr as (l1 & l2 & -> & _).
      rewrite concat_app in Hsorted. cbn in Hsorted.
      by eapply StronglySorted_app_1_l, StronglySorted_app_1_r. }
    destruct r as [|o r]; [done|]. cbn in Hhead. injection Hhead as ->.
    destruct r as [|o' r].
    + cbn in Hlast. injection Hlast as <-. reflexivity.
    + apply StronglySorted_cons in Hsr as [Hall _].
      eapply (proj1 (Forall_forall _ _) Hall).
      rewrite last_cons_cons in Hlast. by eapply last_Some_elem_of.
  - intros i j ei ej Hij Hei Hej.
    destruct (Forall2_lookup_r _ _ _ _ _ Hevs Hei) as (ri & Hri & Hsi).
    destruct (Forall2_lookup_r _ _ _ _ _ Hevs Hej) as (rj & Hrj & Hsj).
    destruct Hsi as (_ & o1 & _ & Hlast & _ & Hend & _).
    destruct Hsj as (o0 & _ & Hhead & _ & Hst & _).
    exists o1.1, o0.1. split_and!; [done..|].
    eapply (StronglySorted_concat_lookup
              (λ a b : Timestamp * reading, not_after a.1 b.1) rs i j ri rj); try done.
    + by eapply last_Some_elem_of.
    + by eapply head_Some_elem_of.
Qed.

Lemma scenario_times_ascend : StronglySorted not_after scenario_times.
Proof.
  unfold scenario_times.
  repeat (apply SSorted_cons; [|repeat (apply Forall_cons_2; [reflexivity|]); apply Forall_nil_2]).
  apply SSorted_nil.
Defined.

Lemma detect_leaks_chronological_witness :
  ∃ evs, detect_leaks scenario THRESH_LPS = Ok evs ∧
    (∀ i ev, evs !! i = Some ev →
       ∃ t0 t1, start ev = LTime t0 ∧ end_ ev = LTime t1 ∧ not_after t0 t1) ∧
    (∀ i j ei ej, i < j → evs !! i = Some ei → evs !! j = Some ej →
       ∃ t1 t0, end_ ei = LTime t1 ∧ start ej = LTime t0 ∧ not_after t1 t0).
Proof.
  apply (detect_leaks_chronological scenario scenario_times scenario_readings
           THRESH_LPS); [reflexivity..|].
  exact scenario_times_ascend.
Defined.

Lemma row_get_cases row c : (∃ v, row_get row c = Ok v) ∨ row_get row c = Raise KeyError.
Proof. unfold row_get. destruct (row !! c); eauto. Qed.

(** X4. A frame that has rows but lacks one of the columns the loop reads
    on every row ([diff_lps], [geral_lps], [soma_sensores_lps]), as a frame
    that has not been through [preprocess] does, makes [detect_leaks] raise
    [KeyError]. *)
Theorem detect_leaks_missing_column df th c :
  empty df = false →
  c ∈ ["diff_lps"; "geral_lps"; "soma_sensores_lps"] →
  columns df !! c = None →
  detect_leaks df th = Raise KeyError.
Proof.
  intros He Hc Hnone. unfold detect_leaks. rewrite He.
  assert (∃ l rows, iterrows df = (l, row_at df 0) :: rows) as (l & rows & ->).
  { unfold empty in He. apply orb_false_iff in He as [Hn _].
    apply Nat.eqb_neq in Hn. unfold iterrows, nrows in *.
    destruct (index df) as [n|ts]; cbn in *.
    - destruct n; [done|]. cbn. eauto.
    - destruct ts; [done|]. cbn. eauto. }
  assert (Hrow : row_get (row_at df 0) c = Raise KeyError).
  { unfold row_get, row_at. by rewrite lookup_omap, Hnone. }
  cbn [scan_rows]. unfold scan_step at 1, anomalous. cbn [snd].
  repeat (apply elem_of_cons in Hc as [->|Hc]); [| |  |by apply elem_of_nil in Hc].
  - by rewrite Hrow.
  - destruct (row_get_cases (row_at df 0) "diff_lps") as [[v ->]| ->]; [|done].
    cbn. by rewrite Hrow.
  - destruct (row_get_cases (row_at df 0) "diff_lps") as [[v ->]| ->]; [|done].
    destruct (row_get_cases (row_at df 0) "geral_lps") as [[v' ->]| ->]; [|done].
    cbn. by rewrite Hrow.
Qed.

Lemma detect_leaks_missing_column_witness :
  detect_leaks scenario_raw THRESH_LPS = Raise KeyError.
Proof.
  apply (detect_leaks_missing_column scenario_raw THRESH_LPS "diff_lps").
  - reflexivity.
  - apply elem_of_cons. by left.
  - reflexivity.
Defined.

Lemma runs_from_all {A} (P : A → Prop) cur l rs :
  runs_from P cur l rs → Forall P l → cur ++ l ≠ [] → rs = [cur ++ l].
Proof.
  induction 1 as [|cur ?|cur x l rs Hx _ IH|x l rs Hx _ IH|cur x l rs ? Hx _ IH];
    intros Hall Hne.
  - done.
  - by rewrite app_nil_r.
  - apply Forall_cons in Hall as [_ Hall]. rewrite IH; [|done|].
    + by rewrite <-app_assoc.
    + by destruct cur.
  - by apply Forall_cons in Hall as [? _].
  - by apply Forall_cons in Hall as [? _].
Qed.

(** X5. A frame in which every reading is anomalous gives one event, from
    the first timestamp to the last: consecutive anomalous readings are
    never split. *)
Theorem detect_leaks_single_run df ts rds th t0 t1 :
  index df = DatetimeIndex ts →
  readings df = Some rds →
  head ts = Some t0 →
  last ts = Some t1 →
  Forall (is_anomalous th) (zip ts rds) →
  ∃ ev, detect_leaks df th = Ok [ev] ∧ start ev = LTime t0 ∧ end_ ev = LTime t1.
Proof.
  intros Hidx Hrd Ht0 Ht1 Hall.
  destruct (iterrows_reads df ts rds Hidx Hrd) as [Hlen _].
  destruct (detect_leaks_runs df ts rds th Hidx Hrd) as (rs & evs & Hd & Hrs & Hevs).
  assert (Hne : zip ts rds ≠ []).
  { destruct ts; [done|]. by destruct rds. }
  apply runs_from_all in Hrs as ->; [|done..]. cbn in Hevs.
  inversion Hevs as [|? ev ? ? Hsum Hnil]; subst. inversion Hnil; subst.
  exists ev. split; [done|].
  destruct Hsum as (o0 & o1 & Hhead & Hlast & Hst & Hend & _).
  rewrite Hst, Hend. split; f_equal.
  - destruct ts as [|t ts]; [done|]. destruct rds; [done|].
    cbn in *. injection Hhead as <-. by injection Ht0 as <-.
  - apply last_Some in Ht1 as [ts' ->].
    rewrite length_app in Hlen. cbn in Hlen.
    destruct (decide (rds = [])) as [->|Hrds]; [cbn in Hlen; lia|].
    destruct (last rds) as [rd|] eqn:Hl; [|by apply last_None in Hl].
    apply last_Some in Hl as [rds' ->].
    rewrite length_app in Hlen. cbn in Hlen.
    rewrite zip_with_app in Hlast by lia. cbn in Hlast.
    rewrite last_snoc in Hlast. by injection Hlast as <-.
Qed.

Lemma detect_leaks_single_run_witness :
  ∃ ev, detect_leaks (mkDataFrame (DatetimeIndex (take 2 (drop 2 scenario_times)))
                        ((λ c, take 2 (drop 2 c)) <$> columns scenario)) THRESH_LPS = Ok [ev] ∧
        start ev = LTime (secs 2) ∧ end_ ev = LTime (secs 3).
Proof.
  apply (detect_leaks_single_run _ (take 2 (drop 2 scenario_times))
           (take 2 (drop 2 scenario_readings)) THRESH_LPS (secs 2) (secs 3));
    try reflexivity.
  repeat (apply Forall_cons_2; [right; split; reflexivity|]). apply Forall_nil_2.
Defined.

(** ** The deriver: its columns, its errors, and what follows it *)

Section set_columns.
Context (set := λ (d : DataFrame) (c : string * list Q), set_column d c.1 (Num <$> c.2)).

Lemma set_columns_index d L : index (foldl set d L) = index d.
Proof. revert d. induction L as [|c L IH]; intros d; [done|]. cbn. by rewrite IH. Qed.

Lemma set_columns_other d L k :
  k ∉ L.*1 → columns (foldl set d L) !! k = columns d !! k.
Proof.
  revert d. induction L as [|[c v] L IH]; intros d Hk; [done|].
  cbn in *. apply not_elem_of_cons in Hk as [Hne Hk].
  rewrite IH by done. cbn. by rewrite lookup_insert_ne.
Qed.

Lemma set_columns_lookup d L k v :
  NoDup L.*1 → (k, v) ∈ L → columns (foldl set d L) !! k = Some (Num <$> v).
Proof.
  revert d. induction L as [|[c w] L IH]; intros d Hnd Hin.
  - by apply elem_of_nil in Hin.
  - cbn in Hnd. apply NoDup_cons in Hnd as [Hc Hnd].
    apply elem_of_cons in Hin as [[= -> ->]|Hin]; cbn.
    + rewrite set_columns_other by done. cbn. apply lookup_insert_eq.
    + by apply IH.
Qed.

Lemma set_columns_again d L :
  NoDup L.*1 →
  (∀ k v, (k, v) ∈ L → columns d !! k = Some (Num <$> v)) →
  foldl set d L = d.
Proof.
  revert d. induction L as [|[c w] L IH]; intros d Hnd Hd; [done|].
  cbn in Hnd. apply NoDup_cons in Hnd as [Hc Hnd]. cbn.
  assert (set d (c, w) = d) as ->.
  { destruct d as [i m]. unfold set, set_column. cbn. f_equal.
    apply insert_id. apply (Hd c w). by left. }
  apply IH; [done|]. intros k v Hin. apply Hd. by right.
Qed.
End set_columns.

Lemma DERIVED_COLUMNS_NoDup : NoDup DERIVED_COLUMNS.
Proof. apply (bool_decide_unpack _). vm_compute. exact I. Qed.

(** The bindings [derive] writes. *)
Lemma derive_columns df ts g s1 s2 s3 s4 :
  let geral := (λ v, div60 (num0 v)) <$> g in
  let soma := (λ i, Qsum (omap (λ col : list Q, col !! i)
                      ((λ s : list value, num0 <$> s) <$> [s1; s2; s3; s4])))
                <$> seq 0 (length ts) in
  let delta := deltas None ts in
  let L := [("geral_lps", geral)] ++
           zip SENSOR_COLUMNS ((λ s : list value, num0 <$> s) <$> [s1; s2; s3; s4]) ++
           [("soma_sensores_lps", soma);
            ("delta_s", delta);
            ("volume_geral_l", zip_with Qmult geral delta);
            ("volume_sensores_l", zip_with Qmult soma delta);
            ("diff_lps", Qabs <$> zip_with Qminus geral soma)] in
  L.*1 = DERIVED_COLUMNS ∧
  index (derive df ts g [s1; s2; s3; s4]) = index df ∧
  (∀ k, k ∉ DERIVED_COLUMNS →
        columns (derive df ts g [s1; s2; s3; s4]) !! k = columns df !! k) ∧
  (∀ k v, (k, v) ∈ L →
          columns (derive df ts g [s1; s2; s3; s4]) !! k = Some (Num <$> v)).
Proof.
  intros geral soma delta L.
  assert (HL : L.*1 = DERIVED_COLUMNS) by done.
  split_and!; [done|apply set_columns_index| |].
  - intros k Hk. unfold derive. apply set_columns_other.
    fold geral soma delta. by change (k ∉ L.*1); rewrite HL.
  - intros k v Hin. unfold derive. apply set_columns_lookup; [|done].
    change (NoDup L.*1). rewrite HL. apply DERIVED_COLUMNS_NoDup.
Qed.





(** X7. [preprocess] adds its derived columns and rewrites the sensor
    columns as numbers, a cell that is not a number becoming 0; every other
    column of the frame, the raw general-flow column among them, is in the
    result as it was. *)
Theorem preprocess_keeps_columns h r df ts g s1 s2 s3 s4 :
  h !! r = Some df →
  index df = DatetimeIndex ts →
  ts ≠ [] →
  columns df !! GENERAL_FLOW_COL = Some g →
  Forall2 (λ c s, columns df !! c = Some s) SENSOR_COLUMNS [s1; s2; s3; s4] →
  ∃ r' h' df',
    preprocess r h = (Ok r', h') ∧
    h' !! r' = Some df' ∧
    (∀ c, c ∉ DERIVED_COLUMNS → columns df' !! c = columns df !! c) ∧
    columns df' !! GENERAL_FLOW_COL = Some g ∧
    Forall2 (λ c s, columns df' !! c = Some ((λ v, Num (num0 v)) <$> s))
      SENSOR_COLUMNS [s1; s2; s3; s4].
Proof.
  intros Hr Hidx Hts Hg Hs.
  exists (length h), (h ++ [derive df ts g [s1; s2; s3; s4]]),
    (derive df ts g [s1; s2; s3; s4]).
  destruct (derive_columns df ts g s1 s2 s3 s4) as (_ & _ & Hother & Hcol).
  split_and!.
  - by apply preprocess_run.
  - by rewrite list_lookup_middle.
  - done.
  - rewrite Hother; [done|]. apply (bool_decide_unpack _). vm_compute. exact I.
  - unfold SENSOR_COLUMNS in *.
    repeat (apply Forall2_cons_2;
              [change (λ v, Num (num0 v)) with (Num ∘ num0);
               rewrite list_fmap_compose; apply Hcol;
               cbn [zip_with fmap list_fmap];
               rewrite !elem_of_app, !elem_of_cons; tauto|]).
    apply Forall2_nil_2.
Qed.

Lemma preprocess_keeps_columns_witness :
  ∃ r' h' df',
    preprocess 0 [scenario_raw] = (Ok r', h') ∧
    h' !! r' = Some df' ∧
    (∀ c, c ∉ DERIVED_COLUMNS → columns df' !! c = columns scenario_raw !! c) ∧
    columns df' !! GENERAL_FLOW_COL = Some raw_flow ∧
    Forall2 (λ c s, columns df' !! c = Some ((λ v, Num (num0 v)) <$> s))
      SENSOR_COLUMNS [silent; silent; silent; silent].
Proof.
  apply (preprocess_keeps_columns [scenario_raw] 0 scenario_raw scenario_times raw_flow
           silent silent silent silent); try reflexivity.
  - discriminate.
  - repeat (apply Forall2_cons_2; [reflexivity|]). apply Forall2_nil_2.
Defined.

(** X8. On a frame that has rows but no general-flow column [preprocess]
    raises [KeyError]; by then it has made its copy, and the argument is
    as it was. *)
Theorem preprocess_missing_general_flow h r df :
  h !! r = Some df →
  empty df = false →
  columns df !! GENERAL_FLOW_COL = None →
  preprocess r h = (Raise KeyError, h ++ [df]).
Proof.
  intros Hr He Hg. unfold preprocess.
  rewrite (run_empty _ _ _ _ Hr), He, (run_copy _ _ _ _ Hr).
  rewrite run_bind. unfold df_getitem. rewrite run_bind, deref_new.
  unfold lift, getitem. by rewrite Hg.
Qed.

Lemma preprocess_missing_general_flow_witness :
  preprocess 0 [scenario] = (Raise KeyError, [scenario] ++ [scenario]).
Proof.
  apply (preprocess_missing_general_flow [scenario] 0 scenario); reflexivity.
Defined.

Lemma run_sensor_loop_missing h cs :
  ∀ d c,
    c ∈ cs → columns d !! c = None →
    ∃ d',
      for_each cs (λ s,
          c ← df_get (length h) s;
          match c with
          | Some col => df_setitem (length h) s (fillna (to_numeric col) 0)
          | None => lift (Raise AttributeError)
          end) (h ++ [d])
      = (Raise AttributeError, h ++ [d']).
Proof.
  induction cs as [|c0 cs IH]; intros d c Hc Hnone.
  - by apply elem_of_nil in Hc.
  - cbn [for_each]. rewrite run_bind, run_get.
    destruct (columns d !! c0) as [col|] eqn:Hc0.
    + rewrite setitem_new.
      apply elem_of_cons in Hc as [->|Hc]; [congruence|].
      apply (IH _ c); [done|]. cbn. rewrite lookup_insert_ne; [done|].
      intros ->. congruence.
    + by exists d.
Qed.

(** X9. The default of [df.get(s, 0)] does not stand in for a missing
    sensor column: on a frame that has rows and the general-flow column but
    lacks one of the sensor columns [preprocess] raises [AttributeError]. *)
Theorem preprocess_missing_sensor h r df g c :
  h !! r = Some df →
  empty df = false →
  columns df !! GENERAL_FLOW_COL = Some g →
  c ∈ SENSOR_COLUMNS →
  columns df !! c = None →
  (preprocess r h).1 = Raise AttributeError.
Proof.
  intros Hr He Hg Hc Hnone. unfold preprocess.
  rewrite (run_empty _ _ _ _ Hr), He, (run_copy _ _ _ _ Hr).
  rewrite (run_getitem _ _ _ g) by done.
  rewrite fillna_to_numeric.
  erewrite run_lift by apply series_map_Num.
  rewrite run_setitem, run_bind.
  destruct (run_sensor_loop_missing h SENSOR_COLUMNS
              (set_column df "geral_lps" (Num <$> (div60 <$> (num0 <$> g)))) c)
    as [d' ->]; [done| |done].
  cbn. rewrite lookup_insert_ne; [done|].
  intros <-. revert Hc. apply (bool_decide_unpack _). vm_compute. exact I.
Qed.

Lemma preprocess_missing_sensor_witness :
  (preprocess 0 [week_frame_no_s4]).1 = Raise AttributeError.
Proof.
  apply (preprocess_missing_sensor [week_frame_no_s4] 0 week_frame_no_s4
           [Num 60; Num 60] "S4 – Vazão (L/s)"); try reflexivity.
  unfold SENSOR_COLUMNS. rewrite !elem_of_cons. tauto.
Defined.

Lemma num0_Num (l : list Q) : num0 <$> (Num <$> l) = l.
Proof. rewrite <-list_fmap_compose. apply list_fmap_id. Qed.

(** X10. [preprocess] is idempotent on frames: run again on the frame it
    returned, it returns a new object with the same index, columns and
    cells. *)
Theorem preprocess_idempotent h r df ts g s1 s2 s3 s4 :
  h !! r = Some df →
  index df = DatetimeIndex ts →
  ts ≠ [] →
  columns df !! GENERAL_FLOW_COL = Some g →
  Forall2 (λ c s, columns df !! c = Some s) SENSOR_COLUMNS [s1; s2; s3; s4] →
  ∃ r' h' df',
    preprocess r h = (Ok r', h') ∧
    h' !! r' = Some df' ∧
    preprocess r' h' = (Ok (length h'), h' ++ [df']).
Proof.
  intros Hr Hidx Hts Hg Hs.
  set (df' := derive df ts g [s1; s2; s3; s4]).
  exists (length h), (h ++ [df']), df'.
  destruct (derive_columns df ts g s1 s2 s3 s4) as (HL & Hidx' & Hother & Hcol).
  split_and!.
  - by apply preprocess_run.
  - by rewrite list_lookup_middle.
  - rewrite (preprocess_run (h ++ [df']) (length h) df' ts g
               (Num <$> (num0 <$> s1)) (Num <$> (num0 <$> s2))
               (Num <$> (num0 <$> s3)) (Num <$> (num0 <$> s4))).
    + do 3 f_equal. unfold derive at 1.
      cbn [fmap list_fmap]. rewrite !num0_Num.
      apply set_columns_again.
      * exact DERIVED_COLUMNS_NoDup.
      * exact Hcol.
    + by rewrite list_lookup_middle.
    + unfold df'. by rewrite Hidx'.
    + done.
    + unfold df'. rewrite Hother; [done|].
      apply (bool_decide_unpack _). vm_compute. exact I.
    + unfold SENSOR_COLUMNS.
      repeat (apply Forall2_cons_2;
                [apply Hcol; unfold SENSOR_COLUMNS; cbn [zip_with fmap list_fmap];
                 rewrite !elem_of_app, !elem_of_cons; tauto|]).
      apply Forall2_nil_2.
Qed.

Lemma preprocess_idempotent_witness :
  ∃ r' h' df',
    preprocess 0 [scenario_raw] = (Ok r', h') ∧
    h' !! r' = Some df' ∧
    preprocess r' h' = (Ok (length h'), h' ++ [df']).
Proof.
  apply (preprocess_idempotent [scenario_raw] 0 scenario_raw scenario_times raw_flow
           silent silent silent silent); try reflexivity.
  - discriminate.
  - repeat (apply Forall2_cons_2; [reflexivity|]). apply Forall2_nil_2.
Defined.

Local Open Scope Z_scope.

(** ** The aggregator: totals, bucket order and empty buckets *)








Lemma length_bucket_sums f ts qs : length (bucket_sums f ts qs) = length (bins f ts).
Proof. unfold bucket_sums. by rewrite length_fmap. Qed.


Lemma bins_instants f ts j l : bins f ts !! j = Some l → instants ts ≠ [].
Proof. unfold bins. intros Hj He. by rewrite He in Hj. Qed.





Lemma sparse_frame_columns :
  Forall2 (λ c qs, columns sparse_frame !! c = Some (Num <$> qs))
    (["volume_geral_l"; "volume_sensores_l"] ++ SENSOR_COLUMNS)
    [[1; 10]; [1; 10]; [1; 1]; [0; 0]; [0; 0]; [0; 0]]%Q.
Proof. repeat (apply Forall2_cons_2; [reflexivity|]). apply Forall2_nil_2. Defined.


Lemma filter_none {A} (P : A → Prop) `{∀ x, Decision (P x)} (l : list A) :
  Forall (λ x, ¬ P x) l → filter P l = [].
Proof.
  induction 1 as [|x l Hx _ IH]; [done|].
  by rewrite filter_cons, decide_False.
Qed.

(** X13: a bucket in which no reading falls is still there, with zero in
    every aggregated column, zero cubic metres and zero cost. *)
Theorem aggregate_period_empty_bucket df ts freq vg vs q1 q2 q3 q4 j l :
  index df = DatetimeIndex ts →
  ts ≠ [] →
  Forall2 (λ c qs, columns df !! c = Some (Num <$> qs))
    (["volume_geral_l"; "volume_sensores_l"] ++ SENSOR_COLUMNS)
    [vg; vs; q1; q2; q3; q4] →
  bins freq ts !! j = Some l →
  Forall (λ t, in_bin freq l t = false) ts →
  ∃ agg ls,
    aggregate_period df freq = Ok agg ∧
    index agg = DatetimeIndex ls ∧
    ls !! j = Some (At l) ∧
    Forall (λ c, ∃ x, cell agg c j = Some (Num x) ∧ (x == 0)%Q)
      (["volume_geral_l"; "volume_sensores_l"] ++ SENSOR_COLUMNS ++ ["m3"; "custo_R$"]).
Proof.
  intros Hidx Hts Hcols Hj Hout.
  destruct (aggregate_period_run df ts freq vg vs q1 q2 q3 q4 Hidx
              (bins_instants _ _ _ _ Hj) Hcols)
    as (agg & Hagg & Hi & Hsum & Hm3 & Hcusto).
  assert (Hz : ∀ qs, bucket_sums freq ts qs !! j = Some 0%Q).
  { intros qs. unfold bucket_sums. rewrite list_lookup_fmap, Hj. cbn. f_equal.
    unfold bin_values. rewrite filter_none; [done|].
    apply Forall_forall. intros [t q] Hin.
    apply elem_of_zip_l in Hin. rewrite Forall_forall in Hout.
    cbn. by rewrite (Hout _ Hin). }
  exists agg, (At <$> bins freq ts). split_and!; [done|done|by rewrite list_lookup_fmap, Hj|].
  unfold SENSOR_COLUMNS in *. cbn [app] in *.
  assert (Hcell : ∀ c qs, columns agg !! c = Some (Num <$> bucket_sums freq ts qs) →
            ∃ x, cell agg c j = Some (Num x) ∧ (x == 0)%Q).
  { intros c qs Hc. exists 0%Q. split; [|reflexivity].
    unfold cell. rewrite Hc. cbn. by rewrite list_lookup_fmap, Hz. }
  apply Forall2_cons_1 in Hsum as [Hvg Hsum]. apply Forall2_cons_1 in Hsum as [Hvs Hsum].
  apply Forall2_cons_1 in Hsum as [H1 Hsum]. apply Forall2_cons_1 in Hsum as [H2 Hsum].
  apply Forall2_cons_1 in Hsum as [H3 Hsum]. apply Forall2_cons_1 in Hsum as [H4 _].
  repeat (apply Forall_cons_2; [by eapply Hcell|]).
  apply Forall_cons_2; [|apply Forall_cons_2; [|constructor]].
  - eexists. unfold cell. rewrite Hm3. cbn. rewrite !list_lookup_fmap, Hz. cbn.
    split; [done|]. reflexivity.
  - eexists. unfold cell. rewrite Hcusto. cbn. rewrite !list_lookup_fmap, Hz. cbn.
    split; [done|]. reflexivity.
Qed.

Lemma aggregate_period_empty_bucket_witness :
  ∃ agg ls,
    aggregate_period sparse_frame T = Ok agg ∧
    index agg = DatetimeIndex ls ∧
    ls !! 1%nat = Some (At (monday + 60 * NS_PER_S)) ∧
    Forall (λ c, ∃ x, cell agg c 1 = Some (Num x) ∧ (x == 0)%Q)
      (["volume_geral_l"; "volume_sensores_l"] ++ SENSOR_COLUMNS ++ ["m3"; "custo_R$"]).
Proof.
  apply (aggregate_period_empty_bucket sparse_frame sparse_times T
           [1; 10] [1; 10] [1; 1] [0; 0] [0; 0] [0; 0])%Q.
  - reflexivity.
  - discriminate.
  - exact sparse_frame_columns.
  - reflexivity.
  - repeat (apply Forall_cons_2; [reflexivity|]). constructor.
Defined.

(** X14: the aggregator needs the derived columns. On a frame with a dated
    row that was not put through [preprocess], so that it has no
    [volume_geral_l] column, [aggregate_period] raises [KeyError]. *)
Theorem aggregate_period_not_derived df ts freq ns0 :
  index df = DatetimeIndex ts →
  At ns0 ∈ ts →
  columns df ≠ ∅ →
  columns df !! "volume_geral_l" = None →
  aggregate_period df freq = Raise KeyError.
Proof.
  intros Hidx Hdated Hcols Hvg.
  assert (Hne : empty df = false).
  { unfold empty, nrows. rewrite Hidx. destruct ts; [by apply elem_of_nil in Hdated|]. cbn.
    by apply bool_decide_eq_false_2. }
  unfold aggregate_period. rewrite Hne, Hidx.
  pose proof (instants_dated _ _ Hdated) as Hi.
  destruct (instants ts) as [|i0 rest]; [done|]. cbn [app mapM].
  unfold resample_sum, getitem. rewrite Hvg. reflexivity.
Qed.

Lemma aggregate_period_not_derived_witness :
  aggregate_period scenario_raw D = Raise KeyError.
Proof.
  apply (aggregate_period_not_derived scenario_raw scenario_times D 0).
  - reflexivity.
  - left.
  - intros He. apply (f_equal (λ m : gmap string (list value), m !! GENERAL_FLOW_COL)) in He.
    vm_compute in He. discriminate.
  - reflexivity.
Defined.

(** ** The loader: headers, order and the columns it promises *)

Local Open Scope nat_scope.

Lemma ts_le_total a b : ts_le a b = false → ts_le b a = true.
Proof. destruct a, b; cbn; try done. lia. Qed.

Lemma insert_sorted_perm k l : insert_sorted k l ≡ₚ k :: l.
Proof.
  induction l as [|k' l IH]; cbn; [done|].
  destruct (ts_le k.1 k'.1); [done|]. rewrite IH. apply Permutation_swap.
Qed.

Lemma insert_sorted_sorted k l :
  StronglySorted (λ a b : Timestamp * nat, not_after a.1 b.1) l →
  StronglySorted (λ a b : Timestamp * nat, not_after a.1 b.1) (insert_sorted k l).
Proof.
  induction 1 as [|k' l Hl IH Hk']; cbn; [repeat constructor|].
  destruct (ts_le k.1 k'.1) eqn:Hle.
  - constructor; [by constructor|]. constructor; [done|].
    eapply Forall_impl; [exact Hk'|]. intros x Hx. cbn in Hx.
    exact (not_after_trans _ _ _ Hle Hx).
  - constructor; [done|]. rewrite insert_sorted_perm.
    constructor; [|done]. by apply ts_le_total.
Qed.

Lemma insertion_perm l : foldr insert_sorted [] l ≡ₚ l.
Proof.
  induction l as [|p l IH]; [done|]. cbn [foldr]. by rewrite insert_sorted_perm, IH.
Qed.

Lemma insertion_sorted l :
  StronglySorted (λ a b : Timestamp * nat, not_after a.1 b.1) (foldr insert_sorted [] l).
Proof.
  induction l as [|p l IH]; [constructor|]. cbn [foldr]. apply insert_sorted_sorted, IH.
Qed.

Lemma zip_seq_lookup {A} (l : list A) :
  Forall (λ p, l !! p.2 = Some p.1) (zip l (seq 0 (length l))).
Proof.
  apply Forall_lookup. intros j [x i] Hj.
  apply lookup_zip_with_Some in Hj as (x' & i' & [= -> ->] & Hx & Hi).
  apply lookup_seq in Hi as [-> _]. done.
Qed.

Lemma take_rows_snd {A} (l : list A) (S : list (A * nat)) :
  Forall (λ p, l !! p.2 = Some p.1) S → take_rows (S.*2) l = S.*1.
Proof.
  induction 1 as [|p S Hp _ IH]; [done|].
  unfold take_rows in *. cbn. rewrite Hp. cbn. by rewrite IH.
Qed.

(** The insertion sort is an order for [sort_values]. *)
Lemma stable_argsort_sorts : sorts stable_argsort.
Proof.
  intros ts. unfold stable_argsort.
  set (S := foldr insert_sorted [] (zip ts (seq 0 (length ts)))).
  assert (Hperm : S ≡ₚ zip ts (seq 0 (length ts))) by apply insertion_perm.
  assert (Hsorted : StronglySorted (λ a b : Timestamp * nat, not_after a.1 b.1) S)
    by apply insertion_sorted.
  split.
  - rewrite Hperm. rewrite snd_zip; [done|]. by rewrite length_seq.
  - rewrite take_rows_snd.
    + by apply StronglySorted_fmap with (R1 := λ a b : Timestamp * nat, not_after a.1 b.1).
    + rewrite Hperm. apply zip_seq_lookup.
Qed.

Lemma take_rows_Forall2 {A} (perm : list nat) (col : list A) :
  Forall (λ i, i < length col) perm →
  Forall2 (λ i x, col !! i = Some x) perm (take_rows perm col).
Proof.
  induction 1 as [|i perm Hi _ IH]; [constructor|].
  unfold take_rows in *. cbn.
  destruct (lookup_lt_is_Some_2 col i Hi) as [x Hx]. rewrite Hx. cbn.
  by constructor.
Qed.

Lemma take_rows_lookup {A} (perm : list nat) (col : list A) j i :
  perm ≡ₚ seq 0 (length col) → perm !! j = Some i →
  take_rows perm col !! j = col !! i.
Proof.
  intros Hperm Hj.
  assert (Hlt : Forall (λ i, i < length col) perm).
  { rewrite Hperm. apply Forall_forall. intros k Hk%elem_of_seq. lia. }
  destruct (Forall2_lookup_l _ _ _ _ _ (take_rows_Forall2 perm col Hlt) Hj) as (x & -> & Hx).
  done.
Qed.

Lemma length_take_rows {A} (perm : list nat) (col : list A) :
  perm ≡ₚ seq 0 (length col) → length (take_rows perm col) = length col.
Proof.
  intros Hperm.
  assert (Hlt : Forall (λ i, i < length col) perm).
  { rewrite Hperm. apply Forall_forall. intros k Hk%elem_of_seq. lia. }
  rewrite <-(Forall2_length _ _ _ (take_rows_Forall2 perm col Hlt)).
  by rewrite Hperm, length_seq.
Qed.

(** Headers are looked up by their stripped form. *)
Lemma stripped_lookup (file : list (string * list value)) h col :
  NoDup (strip <$> file.*1) → (h, col) ∈ file →
  columns (strip_columns (frame_of file)) !! strip h = Some col.
Proof.
  intros Hnd Hin. cbn. unfold kmap.
  assert (Hnd' : NoDup file.*1) by by eapply NoDup_fmap_1.
  apply elem_of_list_to_map_1.
  - replace ((prod_map strip id <$> map_to_list (list_to_map file : gmap string (list value))).*1)
      with (strip <$> (map_to_list (list_to_map file : gmap string (list value))).*1).
    + by rewrite (map_to_list_to_map file Hnd').
    + rewrite <-!list_fmap_compose. apply list_fmap_ext. by intros ? [].
  - apply list_elem_of_fmap. exists (h, col). split; [done|].
    apply elem_of_map_to_list. by apply elem_of_list_to_map_1.
Qed.

Lemma stripped_lookup_inv (file : list (string * list value)) c col :
  columns (strip_columns (frame_of file)) !! c = Some col →
  ∃ h, (h, col) ∈ file ∧ strip h = c.
Proof.
  cbn. unfold kmap. intros Hc%elem_of_list_to_map_2.
  apply list_elem_of_fmap in Hc as ([h col'] & [= -> ->] & Hin).
  apply elem_of_map_to_list, elem_of_list_to_map_2 in Hin. by exists h.
Qed.

Lemma stripped_lookup_None (file : list (string * list value)) c :
  c ∉ strip <$> file.*1 →
  columns (strip_columns (frame_of file)) !! c = None.
Proof.
  intros Hc. destruct (columns _ !! c) as [col|] eqn:E; [|done].
  apply stripped_lookup_inv in E as (h & Hin & <-).
  exfalso. apply Hc. apply list_elem_of_fmap. exists h. split; [done|].
  apply list_elem_of_fmap. by exists (h, col).
Qed.

Lemma fill_missing_index cs df : index (fill_missing cs df) = index df.
Proof.
  revert df. induction cs as [|c cs IH]; intros df; [done|].
  unfold fill_missing in *. cbn. rewrite IH. by destruct (columns df !! c).
Qed.

Lemma fill_missing_lookup cs df c :
  columns (fill_missing cs df) !! c
  = match columns df !! c with
    | Some col => Some col
    | None => if decide (c ∈ cs) then Some (replicate (nrows df) (Num 0)) else None
    end.
Proof.
  revert df. induction cs as [|c0 cs IH]; intros df.
  { cbn. destruct (columns df !! c); [done|]. by rewrite decide_False by apply not_elem_of_nil. }
  unfold fill_missing in *. cbn [foldl]. rewrite IH. clear IH.
  destruct (columns df !! c0) as [col0|] eqn:E0.
  - destruct (columns df !! c) as [col|] eqn:E; [done|].
    destruct (decide (c ∈ cs)) as [Hc|Hc].
    + rewrite decide_True; [done|]. by right.
    + rewrite decide_False; [done|]. intros [->|?]%elem_of_cons; [congruence|done].
  - cbn [columns set_column]. destruct (decide (c = c0)) as [->|Hne].
    + rewrite lookup_insert_eq, E0. rewrite decide_True; [done|]. left.
    + rewrite lookup_insert_ne by done.
      destruct (columns df !! c) as [col|]; [done|].
      replace (nrows (set_column df c0 _)) with (nrows df) by done.
      destruct (decide (c ∈ cs)) as [Hc|Hc].
      * rewrite decide_True; [done|]. by right.
      * rewrite decide_False; [done|]. by intros [->|?]%elem_of_cons.
Qed.

Lemma to_datetime_length strptime raw ts :
  to_datetime strptime raw = Ok ts → length ts = length raw.
Proof.
  unfold to_datetime. revert ts. induction raw as [|v raw IH]; intros ts; cbn.
  - by intros [= <-].
  - destruct (to_datetime_cell strptime v); [|done]. cbn.
    destruct (mapM _ raw) as [ts'|]; [|done]. cbn. intros [= <-]. cbn.
    by rewrite (IH ts').
Qed.

(** The frame [load_data] builds from a file with a timestamp column whose
    cells can all be read. *)
Lemma load_data_run strptime argsort fs path file raw ts :
  fs !! path = Some file →
  columns (strip_columns (frame_of file)) !! TIMESTAMP_COL = Some raw →
  to_datetime strptime raw = Ok ts →
  load_data strptime argsort fs path
  = Ok (fill_missing (SENSOR_COLUMNS ++ [GENERAL_FLOW_COL])
          (mkDataFrame (DatetimeIndex (take_rows (argsort ts) ts))
             (take_rows (argsort ts)
                <$> delete TIMESTAMP_COL (columns (strip_columns (frame_of file)))))).
Proof.
  intros Hf Hraw Hts. unfold load_data. rewrite Hf.
  destruct file as [|c file]; [done|]. cbn [read_csv mbind result_bind].
  unfold getitem. rewrite Hraw. cbn [mbind result_bind]. rewrite Hts. done.
Qed.

(** The frame [load_data] returns for a file with a timestamp column that
    can be read, column by column. *)
Lemma load_data_frame strptime argsort fs path file h raw ts :
  sorts argsort →
  fs !! path = Some file →
  NoDup (strip <$> file.*1) →
  (h, raw) ∈ file →
  strip h = TIMESTAMP_COL →
  to_datetime strptime raw = Ok ts →
  ∃ df,
    load_data strptime argsort fs path = Ok df ∧
    index df = DatetimeIndex (take_rows (argsort ts) ts) ∧
    length (take_rows (argsort ts) ts) = length raw ∧
    columns df !! TIMESTAMP_COL = None ∧
    (∀ h' col, (h', col) ∈ file → strip h' ≠ TIMESTAMP_COL →
       columns df !! strip h' = Some (take_rows (argsort ts) col)) ∧
    (∀ c, c ∈ SENSOR_COLUMNS ++ [GENERAL_FLOW_COL] → c ∉ strip <$> file.*1 →
       columns df !! c = Some (replicate (length raw) (Num 0))).
Proof.
  intros Hsorts Hf Hnd Hin Hh Hts.
  assert (Hraw : columns (strip_columns (frame_of file)) !! TIMESTAMP_COL = Some raw).
  { rewrite <-Hh. by apply stripped_lookup. }
  destruct (Hsorts ts) as [Hperm _].
  assert (Hlen : length (take_rows (argsort ts) ts) = length raw).
  { rewrite length_take_rows by done. by eapply to_datetime_length. }
  eexists. split; [by eapply load_data_run|].
  split; [by rewrite fill_missing_index|]. split; [done|].
  split_and!.
  - rewrite fill_missing_lookup. cbn [columns].
    rewrite lookup_fmap, lookup_delete_eq. cbn.
    rewrite decide_False; [done|].
    unfold SENSOR_COLUMNS, GENERAL_FLOW_COL, TIMESTAMP_COL. cbn [app].
    rewrite !elem_of_cons, elem_of_nil. intros [|[|[|[|[|[]]]]]]; discriminate.
  - intros h' col Hin' Hne. rewrite fill_missing_lookup. cbn [columns].
    rewrite lookup_fmap, lookup_delete_ne by done.
    by rewrite (stripped_lookup file h' col).
  - intros c Hc Hout. rewrite fill_missing_lookup. cbn [columns].
    rewrite lookup_fmap. rewrite lookup_delete_ne; cycle 1.
    { intros <-. apply Hout. rewrite <-Hh. apply list_elem_of_fmap. exists h. split; [done|].
      apply list_elem_of_fmap. by exists (h, raw). }
    rewrite stripped_lookup_None by done. cbn.
    rewrite decide_True by done. unfold nrows. cbn. by rewrite Hlen.
Qed.

(** X15: a file that has columns, none of which has a header that reads
    [Timestamp] once stripped, cannot be loaded: [load_data] raises
    [KeyError], whatever else the file holds. *)
Theorem load_data_no_timestamp_column strptime argsort
    (fs : gmap string (list (string * list value))) path file :
  fs !! path = Some file →
  file ≠ [] →
  TIMESTAMP_COL ∉ strip <$> file.*1 →
  load_data strptime argsort fs path = Raise KeyError.
Proof.
  intros Hf Hne Hout. unfold load_data. rewrite Hf.
  destruct file as [|c file]; [done|]. cbn [read_csv mbind result_bind].
  unfold getitem. by rewrite stripped_lookup_None.
Qed.

Lemma load_data_no_timestamp_column_witness :
  load_data iso_strptime stable_argsort {[DATA_PATH := headless_file]} DATA_PATH
  = Raise KeyError.
Proof.
  apply (load_data_no_timestamp_column _ _ _ _ headless_file).
  - reflexivity.
  - discriminate.
  - apply (bool_decide_unpack _). vm_compute. exact I.
Defined.

(** X16: [load_data] moves rows as wholes and puts them in time order.
    For a rectangular file with a readable timestamp column, whose headers
    are told apart by their stripped form, the index of the result is in
    ascending order, rows without timestamp last; row [j] of the result is
    one row [i] of the file, each row of the file being taken once; the
    other columns are found under their stripped header; and the timestamp
    column is no longer a column. *)
Theorem load_data_sorted_rows strptime argsort fs path file h raw ts :
  sorts argsort →
  fs !! path = Some file →
  NoDup (strip <$> file.*1) →
  (h, raw) ∈ file →
  strip h = TIMESTAMP_COL →
  Forall (λ c, length c.2 = length raw) file →
  to_datetime strptime raw = Ok ts →
  ∃ df ts' perm,
    load_data strptime argsort fs path = Ok df ∧
    index df = DatetimeIndex ts' ∧
    StronglySorted not_after ts' ∧
    perm ≡ₚ seq 0 (length raw) ∧
    columns df !! TIMESTAMP_COL = None ∧
    ∀ j i, perm !! j = Some i →
      ts' !! j = ts !! i ∧
      ∀ h' col, (h', col) ∈ file → strip h' ≠ TIMESTAMP_COL →
        cell df (strip h') j = col !! i.
Proof.
  intros Hsorts Hf Hnd Hin Hh Hrect Hts.
  destruct (load_data_frame _ _ _ _ _ _ _ _ Hsorts Hf Hnd Hin Hh Hts)
    as (df & Hld & Hidx & Hlen & Hnots & Hcols & _).
  destruct (Hsorts ts) as [Hperm Hsorted].
  pose proof (to_datetime_length _ _ _ Hts) as Hl.
  exists df, (take_rows (argsort ts) ts), (argsort ts).
  split_and!; [done|done|done|by rewrite <-Hl|done|].
  intros j i Hj. split; [by apply take_rows_lookup|].
  intros h' col Hin' Hne. unfold cell. rewrite (Hcols _ _ Hin' Hne). cbn.
  apply take_rows_lookup; [|done].
  rewrite Forall_forall in Hrect. specialize (Hrect _ Hin'). cbn in Hrect.
  by rewrite Hrect, <-Hl.
Qed.

Lemma padded_file_rectangular :
  Forall (λ c : string * list value, length c.2 = 2) padded_file.
Proof. repeat (apply Forall_cons_2; [reflexivity|]). constructor. Defined.

Lemma padded_file_headers : NoDup (strip <$> padded_file.*1).
Proof. apply (bool_decide_unpack _). vm_compute. exact I. Defined.

Lemma padded_file_timestamp :
  (" Timestamp", [Str "1970-01-01 00:00:02"; Str "1970-01-01 00:00:01"]) ∈ padded_file.
Proof. left. Defined.

Lemma load_data_sorted_rows_witness :
  ∃ df ts' perm,
    load_data iso_strptime stable_argsort {[DATA_PATH := padded_file]} DATA_PATH = Ok df ∧
    index df = DatetimeIndex ts' ∧
    StronglySorted not_after ts' ∧
    perm ≡ₚ seq 0 2 ∧
    columns df !! TIMESTAMP_COL = None ∧
    ∀ j i, perm !! j = Some i →
      ts' !! j = [At (2 * NS_PER_S)%Z; At NS_PER_S] !! i ∧
      ∀ h' col, (h', col) ∈ padded_file → strip h' ≠ TIMESTAMP_COL →
        cell df (strip h') j = col !! i.
Proof.
  apply (load_data_sorted_rows iso_strptime stable_argsort _ _ padded_file
           " Timestamp" [Str "1970-01-01 00:00:02"; Str "1970-01-01 00:00:01"]).
  - exact stable_argsort_sorts.
  - reflexivity.
  - exact padded_file_headers.
  - exact padded_file_timestamp.
  - reflexivity.
  - exact padded_file_rectangular.
  - reflexivity.
Defined.

Lemma load_data_promised strptime argsort fs path file h raw ts c :
  sorts argsort →
  fs !! path = Some file →
  NoDup (strip <$> file.*1) →
  (h, raw) ∈ file →
  strip h = TIMESTAMP_COL →
  Forall (λ c, length c.2 = length raw) file →
  to_datetime strptime raw = Ok ts →
  c ∈ SENSOR_COLUMNS ++ [GENERAL_FLOW_COL] →
  ∃ df col,
    load_data strptime argsort fs path = Ok df ∧
    index df = DatetimeIndex (take_rows (argsort ts) ts) ∧
    length (take_rows (argsort ts) ts) = length raw ∧
    columns df !! c = Some col ∧
    length col = length raw ∧
    (c ∉ strip <$> file.*1 → col = replicate (length raw) (Num 0)).
Proof.
  intros Hsorts Hf Hnd Hin Hh Hrect Hts Hc.
  destruct (load_data_frame _ _ _ _ _ _ _ _ Hsorts Hf Hnd Hin Hh Hts)
    as (df & Hld & Hidx & Hlen & _ & Hcols & Hzero).
  destruct (Hsorts ts) as [Hperm _].
  pose proof (to_datetime_length _ _ _ Hts) as Hl.
  exists df.
  destruct (decide (c ∈ strip <$> file.*1)) as [Hc'|Hc'].
  - apply list_elem_of_fmap in Hc' as (h' & -> & Hh').
    apply list_elem_of_fmap in Hh' as ([h'' col] & -> & Hin'). cbn [fst] in *.
    exists (take_rows (argsort ts) col). split_and!; [done|done|done| | |].
    + apply Hcols; [done|]. intros He. rewrite He in Hc. revert Hc.
      unfold SENSOR_COLUMNS, GENERAL_FLOW_COL, TIMESTAMP_COL. cbn [app].
      rewrite !elem_of_cons, elem_of_nil. intros [|[|[|[|[|[]]]]]]; discriminate.
    + rewrite Forall_forall in Hrect. specialize (Hrect _ Hin'). cbn in Hrect.
      rewrite length_take_rows; [done|]. by rewrite Hrect, <-Hl.
    + intros Hout. exfalso. apply Hout. apply list_elem_of_fmap. exists h''. split; [done|].
      apply list_elem_of_fmap. by exists (h'', col).
  - exists (replicate (length raw) (Num 0)). split_and!; [done|done|done|by apply Hzero| |done].
    by rewrite length_replicate.
Qed.

(** X17: whatever columns the file has, the loaded frame has the four
    sensor columns and the general-flow column, each with one cell per row;
    a column the file did not have is zero throughout. *)
Theorem load_data_expected_columns strptime argsort fs path file h raw ts :
  sorts argsort →
  fs !! path = Some file →
  NoDup (strip <$> file.*1) →
  (h, raw) ∈ file →
  strip h = TIMESTAMP_COL →
  Forall (λ c, length c.2 = length raw) file →
  to_datetime strptime raw = Ok ts →
  ∃ df,
    load_data strptime argsort fs path = Ok df ∧
    nrows df = length raw ∧
    Forall (λ c, ∃ col, columns df !! c = Some col ∧
                        length col = length raw ∧
                        (c ∉ strip <$> file.*1 → col = replicate (length raw) (Num 0)))
      (SENSOR_COLUMNS ++ [GENERAL_FLOW_COL]).
Proof.
  intros Hsorts Hf Hnd Hin Hh Hrect Hts.
  destruct (load_data_frame _ _ _ _ _ _ _ _ Hsorts Hf Hnd Hin Hh Hts)
    as (df & Hld & Hidx & Hlen & _).
  exists df. split; [done|]. split; [unfold nrows; by rewrite Hidx|].
  apply Forall_forall. intros c Hc.
  destruct (load_data_promised _ _ _ _ _ _ _ _ c Hsorts Hf Hnd Hin Hh Hrect Hts Hc)
    as (df' & col & Hld' & _ & _ & Hcol & Hl & Hz).
  assert (df' = df) as -> by congruence.
  by exists col.
Qed.

Lemma load_data_expected_columns_witness :
  ∃ df,
    load_data iso_strptime stable_argsort {[DATA_PATH := padded_file]} DATA_PATH = Ok df ∧
    nrows df = 2 ∧
    Forall (λ c, ∃ col, columns df !! c = Some col ∧
                        length col = 2 ∧
                        (c ∉ strip <$> padded_file.*1 → col = replicate 2 (Num 0)))
      (SENSOR_COLUMNS ++ [GENERAL_FLOW_COL]).
Proof.
  apply (load_data_expected_columns iso_strptime stable_argsort _ _ padded_file
           " Timestamp" [Str "1970-01-01 00:00:02"; Str "1970-01-01 00:00:01"]
           [At (2 * NS_PER_S)%Z; At NS_PER_S]).
  - exact stable_argsort_sorts.
  - reflexivity.
  - exact padded_file_headers.
  - exact padded_file_timestamp.
  - reflexivity.
  - exact padded_file_rectangular.
  - reflexivity.
Defined.

(** ** Time order and elapsed time *)





(** ** The pipeline of [update_all] *)





(** ** Thresholds *)

Lemma Qsum_filter_mono {A} (P P' : A → Prop) `{∀ x, Decision (P x)} `{∀ x, Decision (P' x)}
    (v : A → Q) (l : list A) :
  (∀ x, P' x → P x) →
  Forall (λ x, 0 <= v x)%Q l →
  (Qsum (v <$> filter P' l) <= Qsum (v <$> filter P l))%Q.
Proof.
  intros Himp Hpos. induction Hpos as [|x l Hx _ IH]; [apply Qle_refl|].
  rewrite !filter_cons.
  destruct (decide (P' x)) as [HP'|HP'].
  - rewrite decide_True by by apply Himp. cbn.
    apply Qplus_le_compat; [apply Qle_refl|exact IH].
  - destruct (decide (P x)); [|exact IH]. cbn.
    rewrite <-(Qplus_0_l (Qsum _)).
    apply Qplus_le_compat; [exact Hx|exact IH].
Qed.

(** X20: raising the threshold never flags more water. When no reading
    has a negative volume, the events found at a threshold hold, together,
    at most the volume of the events found at any lower threshold. *)
Theorem detect_leaks_threshold_monotone df ts rds th th' :
  index df = DatetimeIndex ts →
  readings df = Some rds →
  (th <= th')%Q →
  Forall (λ rd, 0 <= volume_geral_l rd)%Q rds →
  ∃ evs evs',
    detect_leaks df th = Ok evs ∧
    detect_leaks df th' = Ok evs' ∧
    (Qsum (volume_l <$> evs') <= Qsum (volume_l <$> evs))%Q.
Proof.
  intros Hidx Hrd Hth Hpos.
  destruct (detect_leaks_total df ts rds th Hidx Hrd) as (evs & Hd & _ & Hv).
  destruct (detect_leaks_total df ts rds th' Hidx Hrd) as (evs' & Hd' & _ & Hv').
  exists evs, evs'. split; [done|]. split; [done|].
  rewrite Hv, Hv'. apply Qsum_filter_mono.
  - intros o [Hlt|Hhid]; [left|by right]. by eapply Qle_lt_trans.
  - apply Forall_forall. intros [t rd] Hin%elem_of_zip_r.
    rewrite Forall_forall in Hpos. by apply Hpos.
Qed.

Lemma detect_leaks_threshold_monotone_witness :
  ∃ evs evs',
    detect_leaks scenario THRESH_LPS = Ok evs ∧
    detect_leaks scenario 5 = Ok evs' ∧
    (Qsum (volume_l <$> evs') <= Qsum (volume_l <$> evs))%Q.
Proof.
  apply (detect_leaks_threshold_monotone scenario scenario_times scenario_readings
           THRESH_LPS 5); try reflexivity.
  - discriminate.
  - repeat (apply Forall_cons_2; [discriminate|]). constructor.
Defined.

(** ** Rows without a timestamp *)




